(** * Skill extraction and match scoring of [src/utils/ai.js]

    A shallow embedding of the JavaScript module [utils/ai.js] and the
    properties its specification states about it.

    Conventions of the embedding.
    - A JavaScript [number] that the module computes with is a finite IEEE 754
      binary64 value.  It is represented by the rational it denotes; every
      arithmetic operator is the exact operation on rationals followed by
      [round64], rounding to the nearest binary64 value with ties to even.
      Infinities and NaN are not represented: every division of the module is
      guarded against a zero divisor, and magnitudes stay far below 2^1024
      for time values within the range of [Date] (at most 8.64e15 ms from the
      epoch) and arrays of fewer than 2^32 elements.
    - Counters and time values are integers below 2^53, which binary64
      holds exactly; they are kept in [Z] until they enter a division or a
      product.
    - A JavaScript string is a [string] whose characters are read as code
      units below 256 (Latin-1 text).
    - The clock that [new Date()] reads is the parameter [now] of the
      functions that read it.
    - The two [async] functions are modelled by the value their promise
      resolves to; a thrown [TypeError] is the [None] of [option]. *)

From Stdlib Require Import ZArith QArith Qround Qpower Qreduction SpecFloat.
From Stdlib Require Import Lia Lqa Bool List Ascii String.
From Stdlib Require Import Permutation Sorted.
Import ListNotations.

Open Scope Q_scope.

(** ** Binary64 arithmetic *)

Module Num.

Definition number := Q.

(** [floor (log2 x)] for a positive rational. *)
Definition ilog2 (x : Q) : Z :=
  let g := (Z.log2 (Qnum x) - Z.log2 (Zpos (Qden x)))%Z in
  if Qle_bool (2 ^ g) x then g else (g - 1)%Z.

(** Nearest integer, ties to the even one. *)
Definition roundHalfEven (q : Q) : Z :=
  let f := Qfloor q in
  match Qcompare (q - inject_Z f) (1 # 2) with
  | Lt => f
  | Gt => (f + 1)%Z
  | Eq => if Z.even f then f else (f + 1)%Z
  end.

(** Exponent of the unit in the last place of a positive [x]: 53 significant
    bits, and the subnormal floor at 2^-1074. *)
Definition ulpExp (x : Q) : Z := Z.max (ilog2 x - 52) (-1074).

Definition roundPos (x : Q) : Q :=
  let e := ulpExp x in
  inject_Z (roundHalfEven (x * 2 ^ (- e))) * 2 ^ e.

Definition round64 (x : Q) : number :=
  match Qcompare x 0 with
  | Eq => 0
  | Gt => Qred (roundPos x)
  | Lt => Qred (- roundPos (- x))
  end.

(** The operators of the source: [+], [-], [*], [/]. *)
Definition add (x y : number) : number := round64 (x + y).
Definition sub (x y : number) : number := round64 (x - y).
Definition mul (x y : number) : number := round64 (x * y).
Definition div (x y : number) : number := round64 (x / y).

(** A decimal literal of the source denotes the nearest binary64 value. *)
Definition lit (q : Q) : number := round64 q.

(** An integer below 2^53 in magnitude is a binary64 value. *)
Definition ofZ (z : Z) : number := inject_Z z.

(** [Math.min] and [Math.max] on numbers. *)
Definition min (x y : number) : number := if Qle_bool x y then x else y.
Definition max (x y : number) : number := if Qle_bool x y then y else x.

(** [<], [<=], [>], [>=]. *)
Definition ltb (x y : number) : bool := negb (Qle_bool y x).
Definition leb (x y : number) : bool := Qle_bool x y.
Definition gtb (x y : number) : bool := ltb y x.
Definition geb (x y : number) : bool := leb y x.

End Num.


(** ** Strings *)

Module Str.

Open Scope char_scope.

Definition codeIn (lo hi : nat) (c : ascii) : bool :=
  (lo <=? nat_of_ascii c)%nat && (nat_of_ascii c <=? hi)%nat.

(** [toLowerCase] on one code unit below 256: A-Z, and the Latin-1 capitals
    U+00C0..U+00DE without the multiplication sign U+00D7, move up by 32. *)
Definition lowerChar (c : ascii) : ascii :=
  if codeIn 65 90 c || (codeIn 192 222 c && negb (Ascii.eqb c (ascii_of_nat 215)))
  then ascii_of_nat (nat_of_ascii c + 32)
  else c.

(** [String.prototype.toLowerCase]. *)
Fixpoint toLowerCase (s : string) : string :=
  match s with
  | EmptyString => EmptyString
  | String c s' => String (lowerChar c) (toLowerCase s')
  end.

(** [s.startsWith(p)]. *)
Fixpoint startsWith (p s : string) : bool :=
  match p, s with
  | EmptyString, _ => true
  | String a p', String b s' => Ascii.eqb a b && startsWith p' s'
  | String _ _, EmptyString => false
  end.

(** [hay.includes(needle)]. *)
Fixpoint includes (hay needle : string) : bool :=
  startsWith needle hay ||
  match hay with
  | EmptyString => false
  | String _ hay' => includes hay' needle
  end.

(** [\w] without the unicode flag. *)
Definition isWordChar (c : ascii) : bool :=
  codeIn 97 122 c || codeIn 65 90 c || codeIn 48 57 c || Ascii.eqb c "_".

(** The line terminators below 256, which [.] does not match. *)
Definition isLineTerminator (c : ascii) : bool :=
  Ascii.eqb c (ascii_of_nat 10) || Ascii.eqb c (ascii_of_nat 13).

(** [s.replace(/[^\w]/g, '')]. *)
Fixpoint stripNonWord (s : string) : string :=
  match s with
  | EmptyString => EmptyString
  | String c s' => if isWordChar c then String c (stripNonWord s') else stripNonWord s'
  end.

(** [parts.join(sep)]. *)
Definition join (sep : string) (parts : list string) : string :=
  String.concat sep parts.

End Str.

(** ** Regular expressions

    The fragment of the regular expressions of the module: literal
    characters, [.], sequence, alternation, the greedy [?], and [\b], all
    under the flags [g] and [i].  Matching is the backtracking search of
    ECMAScript, written in continuation-passing style: the continuation is
    the rest of the pattern, and [None] makes the matcher try its next
    choice. *)

Module Regex.
Import Str.

Inductive regex : Type :=
| Eps : regex
| Chr : ascii -> regex
| AnyChar : regex
| Seq : regex -> regex -> regex
| Alt : regex -> regex -> regex
| Opt : regex -> regex
| WordB : regex.

(** Under [i] without [u], two code units below 256 match when they are
    equal up to letter case. *)
Definition ciEq (c a : ascii) : bool := Ascii.eqb (lowerChar c) (lowerChar a).

Definition isWordAt (o : option ascii) : bool :=
  match o with Some c => isWordChar c | None => false end.

Definition next (s : string) : option ascii :=
  match s with EmptyString => None | String a _ => Some a end.

(** [\b] holds between a word character and a non-word character or an end
    of the text. *)
Definition atBoundary (prev : option ascii) (s : string) : bool :=
  xorb (isWordAt prev) (isWordAt (next s)).

(** [run r prev s n k]: match [r] at the text [s], whose previous character
    is [prev] and of whose match [n] characters are already consumed, then
    continue with [k]. *)
Fixpoint run {A : Type} (r : regex) (prev : option ascii) (s : string) (n : nat)
    (k : option ascii -> string -> nat -> option A) : option A :=
  match r with
  | Eps => k prev s n
  | Chr c =>
      match s with
      | String a s' => if ciEq c a then k (Some a) s' (S n) else None
      | EmptyString => None
      end
  | AnyChar =>
      match s with
      | String a s' => if isLineTerminator a then None else k (Some a) s' (S n)
      | EmptyString => None
      end
  | Seq r1 r2 => run r1 prev s n (fun p s' n' => run r2 p s' n' k)
  | Alt r1 r2 =>
      match run r1 prev s n k with
      | Some x => Some x
      | None => run r2 prev s n k
      end
  | Opt r1 =>
      match run r1 prev s n k with
      | Some x => Some x
      | None => k prev s n
      end
  | WordB => if atBoundary prev s then k prev s n else None
  end.

(** Length of the match of [r] that starts exactly here, if there is one. *)
Definition exec (r : regex) (prev : option ascii) (s : string) : option nat :=
  run r prev s 0%nat (fun _ _ n => Some n).

(** [text.match(r)] for a global [r]: the successive matches, left to right,
    each search resuming where the previous match ended (one character
    further after an empty match).  [skip] counts the characters of the
    last match still to step over. *)
Fixpoint scan (r : regex) (prev : option ascii) (s : string) (skip : nat)
    : list string :=
  match skip with
  | S k =>
      match s with
      | EmptyString => []
      | String a s' => scan r (Some a) s' k
      end
  | O =>
      match exec r prev s with
      | Some len =>
          substring 0 len s ::
          match s with
          | EmptyString => []
          | String a s' => scan r (Some a) s' (pred len)
          end
      | None =>
          match s with
          | EmptyString => []
          | String a s' => scan r (Some a) s' 0%nat
          end
      end
  end.

Definition matchAll (r : regex) (text : string) : list string :=
  scan r None text 0%nat.

(** [new RegExp(escapeRegExp(s))]: every character of [s] stands for
    itself, the special ones being escaped. *)
Fixpoint literal (s : string) : regex :=
  match s with
  | EmptyString => Eps
  | String c s' => Seq (Chr c) (literal s')
  end.

(** The greedy bounded repetition [r{0,n}]. *)
Fixpoint upTo (n : nat) (r : regex) : regex :=
  match n with
  | O => Eps
  | S n' => Opt (Seq r (upTo n' r))
  end.

(** [(w|w1|w2|...)]. *)
Fixpoint oneOf (w : string) (ws : list string) : regex :=
  match ws with
  | [] => literal w
  | w' :: ws' => Alt (literal w) (oneOf w' ws')
  end.

End Regex.

(** ** Skill extraction *)

Module Skills.
Import Str Regex.

Open Scope string_scope.

(** A skill record, as [extractSkillsFromText] builds it. *)
Record SkillRecord : Type := mkSkill {
  name : string;
  level : string;
  aiExtracted : bool;
  confidence : Num.number
}.

Definition TECH_SKILLS : list string := [
  "javascript"; "python"; "java"; "react"; "node.js"; "express";
  "mongodb"; "sql"; "postgresql"; "mysql"; "html"; "css";
  "typescript"; "angular"; "vue.js"; "php"; "ruby"; "go";
  "rust"; "c++"; "c#"; "swift"; "kotlin"; "flutter"; "react native";
  "docker"; "kubernetes"; "aws"; "azure"; "gcp"; "git";
  "machine learning"; "ai"; "blockchain"; "solidity"; "web3";
  "tensorflow"; "pytorch"; "scikit-learn"; "pandas"; "numpy"
].

(** [array.push(x)]. *)
Definition push {A : Type} (l : list A) (x : A) : list A := (l ++ [x])%list.

(** [text.match(new RegExp(escapeRegExp(skill), 'gi')) || []]. *)
Definition occurrencesOf (text skill : string) : list string :=
  matchAll (literal skill) text.

(** The pattern [(.{0,50}skill.{0,50})] of [getSkillContext]. *)
Definition contextPattern (skill : string) : regex :=
  Seq (upTo 50 AnyChar) (Seq (literal skill) (upTo 50 AnyChar)).

Definition getSkillContext (text skill : string) : string :=
  match matchAll (contextPattern skill) text with
  | [] => ""
  | matches => toLowerCase (join " " matches)
  end.

(** [context.includes('experience') || context.includes('years')]. *)
Definition mentionsExperience (context : string) : bool :=
  includes context "experience" || includes context "years".

(** [context.includes('expert') || context.includes('advanced')]. *)
Definition mentionsExpertise (context : string) : bool :=
  includes context "expert" || includes context "advanced".

(** The two context boosts and the final clamp of [calculateConfidence], as
    a function of the base confidence. *)
Definition boost (context : string) (confidence : Num.number) : Num.number :=
  let confidence :=
    if mentionsExperience context
    then Num.add confidence (Num.lit (2 # 10)) else confidence in
  let confidence :=
    if mentionsExpertise context
    then Num.add confidence (Num.lit (1 # 10)) else confidence in
  Num.min confidence 1.

(** [Math.min(occurrences * 0.3, 0.9)]. *)
Definition baseConfidence (occurrences : nat) : Num.number :=
  Num.min (Num.mul (Num.ofZ (Z.of_nat occurrences)) (Num.lit (3 # 10)))
          (Num.lit (9 # 10)).

Definition calculateConfidence (text skill : string) : Num.number :=
  let occurrences := List.length (occurrencesOf text skill) in
  let context := getSkillContext text skill in
  boost context (baseConfidence occurrences).

(** The record the first loop pushes for a dictionary entry. *)
Definition dictionaryRecord (text skill : string) : SkillRecord :=
  mkSkill skill "Intermediate" true (calculateConfidence text skill).

(** The first loop: one record per dictionary entry that the lowercased text
    contains. *)
Definition dictionaryPass (text : string) : list SkillRecord :=
  fold_left
    (fun extractedSkills skill =>
       if includes (toLowerCase text) skill
       then push extractedSkills (dictionaryRecord text skill)
       else extractedSkills)
    TECH_SKILLS [].

Definition wordBounded (r : regex) : regex := Seq WordB (Seq r WordB).

(** The five patterns of the second loop. *)
Definition patterns : list regex := [
  (* /\b(react|angular|vue|svelte|ember)\.?js\b/gi *)
  Seq WordB (Seq (oneOf "react" ["angular"; "vue"; "svelte"; "ember"])
    (Seq (Opt (Chr ".")) (Seq (literal "js") WordB)));
  (* /\b(node|express|django|flask|spring|laravel)\.?js?\b/gi *)
  Seq WordB (Seq (oneOf "node" ["express"; "django"; "flask"; "spring"; "laravel"])
    (Seq (Opt (Chr ".")) (Seq (Chr "j") (Seq (Opt (Chr "s")) WordB))));
  (* /\b(mongodb|postgresql|mysql|redis|elasticsearch)\b/gi *)
  wordBounded (oneOf "mongodb" ["postgresql"; "mysql"; "redis"; "elasticsearch"]);
  (* /\b(docker|kubernetes|jenkins|travis|circleci)\b/gi *)
  wordBounded (oneOf "docker" ["kubernetes"; "jenkins"; "travis"; "circleci"]);
  (* /\b(aws|azure|gcp|heroku|vercel|netlify)\b/gi *)
  wordBounded (oneOf "aws" ["azure"; "gcp"; "heroku"; "vercel"; "netlify"])
].

(** [extractedSkills.find(s => s.name === skill)], as a truth value. *)
Definition hasName (skill : string) (extractedSkills : list SkillRecord) : bool :=
  existsb (fun s => String.eqb (name s) skill) extractedSkills.

(** The body of the inner [forEach]: one match of one pattern. *)
Definition addMatch (extractedSkills : list SkillRecord) (m : string)
    : list SkillRecord :=
  let skill := stripNonWord (toLowerCase m) in
  if negb (hasName skill extractedSkills)
  then push extractedSkills (mkSkill skill "Intermediate" true (Num.lit (8 # 10)))
  else extractedSkills.

(** The second loop. *)
Definition patternPass (text : string) (extractedSkills : list SkillRecord)
    : list SkillRecord :=
  fold_left
    (fun extractedSkills pattern =>
       fold_left addMatch (matchAll pattern text) extractedSkills)
    patterns extractedSkills.

(** [self.findIndex(p)], [-1] when no element satisfies [p]. *)
Fixpoint findIndexFrom {A : Type} (p : A -> bool) (l : list A) (i : Z) : Z :=
  match l with
  | [] => (-1)%Z
  | x :: l' => if p x then i else findIndexFrom p l' (i + 1)%Z
  end.

Definition findIndex {A : Type} (p : A -> bool) (l : list A) : Z :=
  findIndexFrom p l 0%Z.

(** [self.filter((x, index, self) => f x index self)]. *)
Fixpoint filterFrom {A : Type} (f : A -> Z -> list A -> bool) (self l : list A)
    (i : Z) : list A :=
  match l with
  | [] => []
  | x :: l' =>
      if f x i self then x :: filterFrom f self l' (i + 1)%Z
      else filterFrom f self l' (i + 1)%Z
  end.

Definition filterIndexed {A : Type} (f : A -> Z -> list A -> bool) (self : list A)
    : list A :=
  filterFrom f self self 0%Z.

(** The "remove duplicates" filter. *)
Definition uniqueSkills (extractedSkills : list SkillRecord) : list SkillRecord :=
  filterIndexed
    (fun skill index self =>
       Z.eqb index (findIndex (fun s => String.eqb (name s) (name skill)) self))
    extractedSkills.

(** [Array.prototype.sort] with a comparator.  The sort of ECMAScript is
    stable; for a comparator that is a consistent ordering the result is the
    stable sorted order, of which there is one ([stable_descending_unique]
    below).  Insertion from the right computes it: an element goes before
    the elements it does not compare greater than. *)
Fixpoint insertBy {A : Type} (cmp : A -> A -> Num.number) (x : A) (l : list A)
    : list A :=
  match l with
  | [] => [x]
  | y :: l' => if Num.leb (cmp x y) 0 then x :: y :: l' else y :: insertBy cmp x l'
  end.

Definition sort {A : Type} (cmp : A -> A -> Num.number) (l : list A) : list A :=
  fold_right (insertBy cmp) [] l.

(** [(a, b) => b.confidence - a.confidence]. *)
Definition byConfidence (a b : SkillRecord) : Num.number :=
  Num.sub (confidence b) (confidence a).

(** Everything pushed on [extractedSkills], in the order of the pushes. *)
Definition extractedSkills (text : string) : list SkillRecord :=
  patternPass text (dictionaryPass text).

(** The value the promise of [extractSkillsFromText(text)] resolves to.  The
    unused [nlp] document of the source has no part in it. *)
Definition extractSkillsFromText (text : string) : list SkillRecord :=
  sort byConfidence (uniqueSkills (extractedSkills text)).

End Skills.

(** ** Match scoring *)

Module Match.
Import Str.

Open Scope string_scope.

Record RequiredSkill : Type := mkRequired {
  reqName : string;          (* [name] of a required skill *)
  mandatory : bool
}.

(** An experience entry: [Date]s as time values, milliseconds since the
    epoch; [endDate] may be absent. *)
Record ExperienceEntry : Type := mkExperience {
  startDate : Z;
  endDate : option Z
}.

Record Preferences : Type := mkPreferences {
  locations : option (list string);
  jobTypes : option (list string)
}.

Record User : Type := mkUser {
  skills : option (list Skills.SkillRecord);
  experience : option (list ExperienceEntry);
  preferences : option Preferences
}.

Record Job : Type := mkJob {
  requiredSkills : option (list RequiredSkill);
  experienceLevel : string;
  remote : bool;
  location : option string;
  type : string
}.

(** [x || d] for an optional field. *)
Definition orElse {A : Type} (x : option A) (d : A) : A :=
  match x with Some v => v | None => d end.

(** [!l.length]. *)
Definition isEmpty {A : Type} (l : list A) : bool :=
  match l with [] => true | _ :: _ => false end.

(** [names.includes(x)] on strings. *)
Definition includesString (names : list string) (x : string) : bool :=
  existsb (String.eqb x) names.

(** The state of the [forEach] of [calculateSkillsMatch]: [matchCount] and
    [totalWeight].  Both stay integers below 2^53, on which the arithmetic
    of numbers is exact. *)
Definition skillStep (userSkillNames : list string) (acc : Z * Z)
    (reqSkill : RequiredSkill) : Z * Z :=
  let '(matchCount, totalWeight) := acc in
  let weight := if mandatory reqSkill then 2%Z else 1%Z in
  let totalWeight := (totalWeight + weight)%Z in
  if includesString userSkillNames (toLowerCase (reqName reqSkill))
  then ((matchCount + weight)%Z, totalWeight)
  else (matchCount, totalWeight).

Definition calculateSkillsMatch (userSkills : list Skills.SkillRecord)
    (requiredSkills : list RequiredSkill) : Num.number :=
  if isEmpty userSkills || isEmpty requiredSkills then 0
  else
    let userSkillNames := map (fun s => toLowerCase (Skills.name s)) userSkills in
    let '(matchCount, totalWeight) :=
      fold_left (skillStep userSkillNames) requiredSkills (0%Z, 0%Z) in
    if (0 <? totalWeight)%Z
    then Num.div (Num.ofZ matchCount) (Num.ofZ totalWeight)
    else 0.

(** [1000 * 60 * 60 * 24 * 365], the milliseconds of a year of 365 days. *)
Definition msPerYear : Num.number :=
  Num.mul (Num.mul (Num.mul (Num.mul 1000 60) 60) 24) 365.

(** The body of the [reduce] of [calculateExperienceMatch]; [now] is the time
    value of [new Date()]. *)
Definition addYears (now : Z) (total : Num.number) (exp : ExperienceEntry)
    : Num.number :=
  let endDate := orElse (endDate exp) now in
  let startDate := startDate exp in
  let years := Num.div (Num.sub (Num.ofZ endDate) (Num.ofZ startDate)) msPerYear in
  Num.add total (Num.max 0 years).

Definition totalYears (now : Z) (userExperience : list ExperienceEntry)
    : Num.number :=
  fold_left (addYears now) userExperience 0.

(** [experienceRanges[level] || [0, 100]]: the four keys of the table, and
    the default for every other level. *)
Definition experienceRange (level : string) : Num.number * Num.number :=
  if String.eqb level "entry" then (0, 2)
  else if String.eqb level "mid" then (2, 5)
  else if String.eqb level "senior" then (5, 10)
  else if String.eqb level "executive" then (10, 100)
  else (0, 100).

Definition calculateExperienceMatch (now : Z) (user : User) (job : Job)
    : Num.number :=
  let userExperience := orElse (experience user) [] in
  if isEmpty userExperience then Num.lit (5 # 10)
  else
    let totalYears := totalYears now userExperience in
    let '(minYears, maxYears) := experienceRange (experienceLevel job) in
    if Num.geb totalYears minYears && Num.leb totalYears maxYears then 1
    else if Num.ltb totalYears minYears
    then Num.max 0 (Num.div totalYears minYears)
    else Num.max (Num.lit (7 # 10))
                 (Num.sub 1 (Num.div (Num.sub totalYears maxYears) maxYears)).

(** [None] is the [TypeError] of reading [toLowerCase] from an absent
    [job.location]. *)
Definition calculateLocationMatch (user : User) (job : Job) : option Num.number :=
  if remote job then Some 1
  else
    let userPreferences := orElse (preferences user) (mkPreferences None None) in
    let preferredLocations := orElse (locations userPreferences) [] in
    if isEmpty preferredLocations then Some (Num.lit (5 # 10))
    else
      match location job with
      | None => None
      | Some l =>
          let jobLocation := toLowerCase l in
          let hasMatch :=
            existsb (fun loc => includes jobLocation (toLowerCase loc)
                                || includes (toLowerCase loc) jobLocation)
                    preferredLocations in
          Some (if hasMatch then 1 else Num.lit (3 # 10))
      end.

Definition calculateJobTypeMatch (user : User) (job : Job) : Num.number :=
  let userPreferences := orElse (preferences user) (mkPreferences None None) in
  let preferredTypes := orElse (jobTypes userPreferences) [] in
  if isEmpty preferredTypes then Num.lit (8 # 10)
  else if includesString preferredTypes (type job) then 1 else Num.lit (5 # 10).

(** One block of [calculateMatchScore]: [totalScore += score * weight;
    weightSum += weight]. *)
Definition accumulate (acc : Num.number * Num.number)
    (score weight : Num.number) : Num.number * Num.number :=
  let '(totalScore, weightSum) := acc in
  (Num.add totalScore (Num.mul score weight), Num.add weightSum weight).

(** [weightSum > 0 ? totalScore / weightSum : 0]. *)
Definition normalise (acc : Num.number * Num.number) : Num.number :=
  let '(totalScore, weightSum) := acc in
  if Num.gtb weightSum 0 then Num.div totalScore weightSum else 0.

(** The accumulator after the four blocks. *)
Definition accumulated (skillsScore experienceScore locationScore typeScore
    : Num.number) : Num.number * Num.number :=
  let acc := (0, 0) in
  let acc := accumulate acc skillsScore (Num.lit (4 # 10)) in
  let acc := accumulate acc experienceScore (Num.lit (3 # 10)) in
  let acc := accumulate acc locationScore (Num.lit (2 # 10)) in
  let acc := accumulate acc typeScore (Num.lit (1 # 10)) in
  acc.

(** The value the promise of [calculateMatchScore(user, job)] resolves to,
    [None] when [calculateLocationMatch] throws. *)
Definition calculateMatchScore (now : Z) (user : User) (job : Job)
    : option Num.number :=
  let skillsScore :=
    calculateSkillsMatch (orElse (skills user) []) (orElse (requiredSkills job) []) in
  let experienceScore := calculateExperienceMatch now user job in
  match calculateLocationMatch user job with
  | None => None
  | Some locationScore =>
      let typeScore := calculateJobTypeMatch user job in
      Some (normalise (accumulated skillsScore experienceScore locationScore typeScore))
  end.

End Match.

(** ** What a match is

    The declarative reading of the patterns, against which the matcher is
    checked: [Matches r prev w rest] says that [r] matches the word [w] when
    [prev] is the character before [w] and [rest] the text after it. *)

Module RegexSem.
Import Str Regex.

Open Scope string_scope.

(** The character before the position [w] characters further. *)
Fixpoint lastOf (prev : option ascii) (w : string) : option ascii :=
  match w with
  | EmptyString => prev
  | String a w' => lastOf (Some a) w'
  end.

Inductive Matches : regex -> option ascii -> string -> string -> Prop :=
| MEps prev rest : Matches Eps prev "" rest
| MChr c a prev rest : ciEq c a = true -> Matches (Chr c) prev (String a "") rest
| MAny a prev rest :
    isLineTerminator a = false -> Matches AnyChar prev (String a "") rest
| MSeq r1 r2 prev w1 w2 rest :
    Matches r1 prev w1 (w2 ++ rest) ->
    Matches r2 (lastOf prev w1) w2 rest ->
    Matches (Seq r1 r2) prev (w1 ++ w2) rest
| MAltL r1 r2 prev w rest : Matches r1 prev w rest -> Matches (Alt r1 r2) prev w rest
| MAltR r1 r2 prev w rest : Matches r2 prev w rest -> Matches (Alt r1 r2) prev w rest
| MOptSome r prev w rest : Matches r prev w rest -> Matches (Opt r) prev w rest
| MOptNone r prev rest : Matches (Opt r) prev "" rest
| MWordB prev rest : atBoundary prev rest = true -> Matches WordB prev "" rest.




End RegexSem.

(** ** Representable numbers *)

Module NumRep.

(** Every binary64 value is an integer multiple of 2^-1074. *)
Definition onGrid (x : Q) : Prop := exists k : Z, x == inject_Z k * 2 ^ (-1074).

End NumRep.

(** ** Reference notions for the extraction *)

Module SkillsSpec.
Import Str Regex Skills.

Open Scope string_scope.

(** The records of [l] whose name is not the name of an earlier record of
    [l] nor of a record of [earlier]: the first record of each name. *)
Fixpoint firstOfEachName (earlier l : list SkillRecord) : list SkillRecord :=
  match l with
  | [] => []
  | x :: l' =>
      if hasName (name x) earlier
      then firstOfEachName (push earlier x) l'
      else x :: firstOfEachName (push earlier x) l'
  end.

(** The records of confidence [c], in the order of [l]. *)
Definition withConfidence (c : Num.number) (l : list SkillRecord)
    : list SkillRecord :=
  filter (fun s => Qeq_bool (confidence s) c) l.

(** Confidence never increases along [l]. *)
Definition descending (l : list SkillRecord) : Prop :=
  StronglySorted (fun a b => confidence b <= confidence a) l.

(** A record as the second loop pushes it. *)
Definition fromPattern (s : SkillRecord) : Prop :=
  confidence s = Num.lit (8 # 10).

(** Every confidence of [l] is a representable value. *)
Definition allOnGrid (l : list SkillRecord) : Prop :=
  Forall (fun s => NumRep.onGrid (confidence s)) l.





End SkillsSpec.

(** ** Reference notions for the scoring *)

Module MatchSpec.
Import Str Match.

Open Scope string_scope.

(** Weight of a required skill: 2 if mandatory, else 1. *)
Definition weightOf (r : RequiredSkill) : Z := if mandatory r then 2%Z else 1%Z.

(** The required skill's name is the name of some user skill, up to letter
    case. *)
Definition userHas (userSkills : list Skills.SkillRecord) (r : RequiredSkill)
    : bool :=
  existsb
    (fun s => String.eqb (toLowerCase (Skills.name s)) (toLowerCase (reqName r)))
    userSkills.

Fixpoint totalWeightOf (requiredSkills : list RequiredSkill) : Z :=
  match requiredSkills with
  | [] => 0%Z
  | r :: rest => (weightOf r + totalWeightOf rest)%Z
  end.

Definition matchedWeightOf (userSkills : list Skills.SkillRecord)
    (requiredSkills : list RequiredSkill) : Z :=
  totalWeightOf (filter (userHas userSkills) requiredSkills).

(** Elapsed years of one entry, in years of 365 days, an absent [endDate]
    meaning [now]. *)
Definition elapsedYears (now : Z) (e : ExperienceEntry) : Num.number :=
  Num.div (Num.sub (Num.ofZ (orElse (endDate e) now)) (Num.ofZ (startDate e)))
          msPerYear.

(** [a] contains [b] as a run of consecutive characters, up to letter
    case. *)
Definition containsIgnoringCase (a b : string) : Prop :=
  exists before after, toLowerCase a = before ++ toLowerCase b ++ after.

(** The preferred locations and job types a user declared, none when the
    field or the list is missing. *)
Definition preferredLocations (user : User) : list string :=
  match preferences user with
  | Some p => orElse (locations p) []
  | None => []
  end.

Definition preferredTypes (user : User) : list string :=
  match preferences user with
  | Some p => orElse (jobTypes p) []
  | None => []
  end.

(** [job] with another [location] field. *)
Definition withLocation (job : Job) (l : option string) : Job :=
  mkJob (requiredSkills job) (experienceLevel job) (remote job) l (type job).

(** The weighted sum and the weight sum as [calculateMatchScore] accumulates
    them, starting from 0, in the order skills, experience, location,
    type. *)
Definition weightedSum (skillsScore experienceScore locationScore typeScore
    : Num.number) : Num.number :=
  Num.add (Num.add (Num.add (Num.add 0
    (Num.mul skillsScore (Num.lit (4 # 10))))
    (Num.mul experienceScore (Num.lit (3 # 10))))
    (Num.mul locationScore (Num.lit (2 # 10))))
    (Num.mul typeScore (Num.lit (1 # 10))).

Definition weightSum : Num.number :=
  Num.add (Num.add (Num.add (Num.add 0
    (Num.lit (4 # 10))) (Num.lit (3 # 10))) (Num.lit (2 # 10))) (Num.lit (1 # 10)).

(** A user who declares nothing, and a job on site with no required
    skill. *)
Definition blankUser : User := mkUser None None None.
Definition onSiteJob : Job := mkJob None "mid" false (Some "Berlin") "full-time".

End MatchSpec.

(** ** The Standard Library's binary64

    [SpecFloat] of the Standard Library specifies the IEEE 754 operations on
    mantissa and exponent.  The two conversions below let the arithmetic of
    [Num] be compared with it on the numbers of the module. *)

Module NumCheck.

Definition ofSpecFloat (f : spec_float) : Q :=
  match f with
  | S754_finite s m e => (if s then -1 else 1) * inject_Z (Zpos m) * 2 ^ e
  | _ => 0
  end.

(** The binary64 value of a rational whose denominator is a power of 2. *)
Definition toSpecFloat (x : Q) : spec_float :=
  binary_normalize 53 1024 (Qnum x) (- Z.log2 (Zpos (Qden x))) false.

Definition agree (op : Q -> Q -> Q)
    (sfop : spec_float -> spec_float -> spec_float) (x y : Q) : bool :=
  Qeq_bool (op x y) (ofSpecFloat (sfop (toSpecFloat x) (toSpecFloat y))).

Definition agreeOnAll (op : Q -> Q -> Q)
    (sfop : spec_float -> spec_float -> spec_float) (xs : list Q) : bool :=
  forallb (fun x => forallb (agree op sfop x) xs) xs.

(** The literals and integers of the module, and some of its sums. *)
Definition samples : list Q :=
  map Num.lit [1 # 10; 2 # 10; 3 # 10; 4 # 10; 5 # 10; 7 # 10; 8 # 10; 9 # 10;
               33 # 100; 6 # 10; 12 # 10]
  ++ [1; 2; 3; 5; 10; 100; 31536000000; 94608000000;
      Num.add (Num.lit (4 # 10)) (Num.lit (3 # 10));
      Num.add (Num.lit (7 # 10)) (Num.lit (2 # 10));
      Num.mul 3 (Num.lit (3 # 10))].

End NumCheck.

(** ** Sample inputs *)

Module Samples.
Import Skills Match.

Open Scope string_scope.

Definition resumeLine : string :=
  "Experienced React.js developer with 5 years in MongoDB and expert AWS skills".

(** A user with three years of experience (in years of 365 days) and a
    remote, full-time, mid-level Python job. *)
Definition pythonUser : User :=
  mkUser (Some [mkSkill "python" "Intermediate" false 1])
         (Some [mkExperience 0 (Some (3 * 31536000000)%Z)])
         (Some (mkPreferences (Some ["Remote"]) (Some ["full-time"]))).

Definition pythonJob : Job :=
  mkJob (Some [mkRequired "python" true]) "mid" true None "full-time".

Definition sixYears : User :=
  mkUser None (Some [mkExperience 0 (Some (4 * 31536000000)%Z);
                     mkExperience 0 None]) None.

Definition seniorJob : Job := mkJob None "senior" false None "full-time".

End Samples.

(** ** Escaping a pattern source *)

Module Escape.
Import Regex.

Open Scope char_scope.

(** The class [[.*+?^${}()|[\]\\]] of [escapeRegExp]. *)
Definition isSpecial (c : ascii) : bool :=
  existsb (Ascii.eqb c)
    ["."; "*"; "+"; "?"; "^"; "$"; "{"; "}"; "("; ")"; "|"; "["; "]"; "\"].

(** [string.replace(/[.*+?^${}()|[\]\\]/g, '\\$&')]: a backslash goes before
    each character of the class. *)
Fixpoint escapeRegExp (s : string) : string :=
  match s with
  | EmptyString => EmptyString
  | String c s' =>
      if isSpecial c then String "\" (String c (escapeRegExp s'))
      else String c (escapeRegExp s')
  end.

(** The syntax characters of an ECMAScript pattern. *)
Definition isSyntaxCharacter (c : ascii) : bool :=
  existsb (Ascii.eqb c)
    ["^"; "$"; "\"; "."; "*"; "+"; "?"; "("; ")"; "["; "]"; "{"; "}"; "|"].

(** How [new RegExp(source)] reads a source made of pattern characters and
    escaped syntax characters: a character that is no syntax character
    stands for itself, and so does a syntax character after a backslash.
    Every other source is outside this fragment ([None]). *)
Fixpoint parsePattern (source : string) : option regex :=
  match source with
  | EmptyString => Some Eps
  | String c rest =>
      if Ascii.eqb c "\" then
        match rest with
        | String d rest' =>
            if isSyntaxCharacter d
            then option_map (Seq (Chr d)) (parsePattern rest')
            else None
        | EmptyString => None
        end
      else if isSyntaxCharacter c then None
      else option_map (Seq (Chr c)) (parsePattern rest)
  end.

End Escape.

(** ** Reference notions for the two passes *)

Module ExtractionSpec.
Import Str Regex Skills.

Open Scope string_scope.

(** [match.toLowerCase().replace(/[^\w]/g, '')], the name the second loop
    gives a match. *)
Definition canonicalName (m : string) : string := stripNonWord (toLowerCase m).

(** A record as the second loop pushes it for a match of one of its
    patterns in [text]. *)
Definition patternRecord (text : string) (r : SkillRecord) : Prop :=
  exists pattern m,
    In pattern patterns /\ In m (matchAll pattern text) /\
    r = mkSkill (canonicalName m) "Intermediate" true (Num.lit (8 # 10)).

(** A pattern without [.]. *)
Fixpoint noAnyChar (r : regex) : bool :=
  match r with
  | AnyChar => false
  | Seq r1 r2 | Alt r1 r2 => noAnyChar r1 && noAnyChar r2
  | Opt r1 => noAnyChar r1
  | Eps | Chr _ | WordB => true
  end.

(** The words a pattern without [.] can match, in lower case. *)
Fixpoint wordsOf (r : regex) : list string :=
  match r with
  | Eps | WordB => [""]
  | Chr c => [String (lowerChar c) ""]
  | AnyChar => []
  | Seq r1 r2 => flat_map (fun a => map (append a) (wordsOf r2)) (wordsOf r1)
  | Alt r1 r2 => (wordsOf r1 ++ wordsOf r2)%list
  | Opt r1 => (wordsOf r1 ++ [""])%list
  end.

(** The names the five patterns can give: the first only with its "js", the
    second with "j" or "js", the other three the bare word. *)
Definition patternNames : list string := [
  "reactjs"; "angularjs"; "vuejs"; "sveltejs"; "emberjs";
  "nodejs"; "nodej"; "expressjs"; "expressj"; "djangojs"; "djangoj";
  "flaskjs"; "flaskj"; "springjs"; "springj"; "laraveljs"; "laravelj";
  "mongodb"; "postgresql"; "mysql"; "redis"; "elasticsearch";
  "docker"; "kubernetes"; "jenkins"; "travis"; "circleci";
  "aws"; "azure"; "gcp"; "heroku"; "vercel"; "netlify"
].

(** Every name a record can carry. *)
Definition vocabulary : list string := (TECH_SKILLS ++ patternNames)%list.

End ExtractionSpec.

(** ** More sample inputs *)

Module Samples2.
Import Skills Match.

Open Scope string_scope.

(** Profiles that differ from [Samples.pythonUser] and [Samples.pythonJob]
    in letter case only. *)
Definition shoutingSkills : list SkillRecord :=
  [mkSkill "PYTHON" "Expert" false 1].

Definition shoutingRequired : list RequiredSkill := [mkRequired "Python" true].



(** A user whose only preferred location is the empty string. *)
Definition anywhereUser : User :=
  mkUser None None (Some (mkPreferences (Some [""]) None)).

Definition berlinUser : User :=
  mkUser None None (Some (mkPreferences (Some ["berlin"]) None)).

Definition shoutingBerlinUser : User :=
  mkUser None None (Some (mkPreferences (Some ["BERLIN"]) None)).

Definition berlinJob : Job := mkJob None "mid" false (Some "Berlin") "full-time".

End Samples2.

(** ** Letters of a text *)

Module Letters.
Import Str.

(** A letter a-z or A-Z. *)
Definition isLetter (c : ascii) : bool := codeIn 97 122 (lowerChar c).

Fixpoint hasLetter (s : string) : bool :=
  match s with
  | EmptyString => false
  | String c s' => isLetter c || hasLetter s'
  end.

End Letters.

(** * Properties *)

(** ** Rounding is monotone *)

Module NumFacts.
Import Num.

Lemma pow2_pos (e : Z) : 0 < 2 ^ e.
Proof. apply Qpower_0_lt. reflexivity. Qed.

Lemma pow2_add (a b : Z) : 2 ^ (a + b) == 2 ^ a * 2 ^ b.
Proof. apply Qpower_plus. discriminate. Qed.

Lemma pow2_succ (a : Z) : 2 ^ (a + 1) == 2 * 2 ^ a.
Proof. rewrite pow2_add. change (2 ^ 1) with 2. ring. Qed.

Lemma pow2_le (a b : Z) : (a <= b)%Z -> 2 ^ a <= 2 ^ b.
Proof. intros H. apply Qpower_le_compat_l; [exact H | discriminate]. Qed.

Lemma pow2_lt_inv (a b : Z) : 2 ^ a < 2 ^ b -> (a < b)%Z.
Proof. intros H. apply (Qpower_lt_compat_l_inv 2); [exact H | reflexivity]. Qed.

Lemma pow2_cancel (e : Z) : 2 ^ (- e) * 2 ^ e == 1.
Proof. rewrite <- pow2_add. replace (- e + e)%Z with 0%Z by lia. reflexivity. Qed.

Lemma pow2_log2 (n : Z) :
  (0 < n)%Z -> 2 ^ Z.log2 n <= inject_Z n /\ inject_Z n < 2 * 2 ^ Z.log2 n.
Proof.
  intros Hn. destruct (Z.log2_spec n Hn) as [Hlo Hhi].
  pose proof (Z.log2_nonneg n) as Hnn.
  rewrite <- pow2_succ.
  rewrite <- (Zpower_Qpower 2 (Z.log2 n)) by lia.
  rewrite <- (Zpower_Qpower 2 (Z.log2 n + 1)) by lia.
  split; [rewrite <- Zle_Qle | rewrite <- Zlt_Qlt]; lia.
Qed.

Lemma ilog2_spec (x : Q) :
  0 < x -> 2 ^ ilog2 x <= x /\ x < 2 ^ (ilog2 x + 1).
Proof.
  intros Hx. unfold ilog2.
  set (a := Z.log2 (Qnum x)). set (b := Z.log2 (Zpos (Qden x))).
  assert (Hn : (0 < Qnum x)%Z).
  { destruct x as [n d]. unfold Qlt in Hx. simpl in *. lia. }
  destruct (pow2_log2 (Qnum x) Hn) as [Ha1 Ha2]. fold a in Ha1, Ha2.
  destruct (pow2_log2 (Zpos (Qden x)) eq_refl) as [Hb1 Hb2]. fold b in Hb1, Hb2.
  pose proof (pow2_pos a) as HA. pose proof (pow2_pos b) as HB.
  assert (Hd : 0 < inject_Z (Zpos (Qden x))) by reflexivity.
  assert (Hxd : x * inject_Z (Zpos (Qden x)) == inject_Z (Qnum x)).
  { destruct x as [n d]. unfold Qeq, Qmult, inject_Z. simpl. lia. }
  assert (Hg : 2 ^ (a - b) * 2 ^ b == 2 ^ a).
  { rewrite <- pow2_add. replace (a - b + b)%Z with a by lia. reflexivity. }
  pose proof (pow2_pos (a - b)) as HG.
  set (A := 2 ^ a) in *. set (B := 2 ^ b) in *. set (G := 2 ^ (a - b)) in *.
  set (D := inject_Z (Zpos (Qden x))) in *. set (N := inject_Z (Qnum x)) in *.
  destruct (Qle_bool G x) eqn:E.
  - apply Qle_bool_iff in E. split; [exact E |].
    rewrite pow2_succ. fold G.
    apply Qnot_le_lt. intros Hc. nra.
  - assert (E' : x < G).
    { apply Qnot_le_lt. intros Hc. apply Qle_bool_iff in Hc. congruence. }
    replace (a - b - 1 + 1)%Z with (a - b)%Z by lia. fold G.
    split; [| exact E'].
    assert (Hh : 2 * 2 ^ (a - b - 1) == G).
    { rewrite <- pow2_succ. replace (a - b - 1 + 1)%Z with (a - b)%Z by lia.
      reflexivity. }
    pose proof (pow2_pos (a - b - 1)) as HH.
    set (H2 := 2 ^ (a - b - 1)) in *.
    apply Qnot_lt_le. intros Hc. nra.
Qed.

Lemma ilog2_mono (x y : Q) : 0 < x -> x <= y -> (ilog2 x <= ilog2 y)%Z.
Proof.
  intros Hx Hxy.
  destruct (ilog2_spec x Hx) as [Hx1 _].
  destruct (ilog2_spec y) as [_ Hy2]; [lra |].
  assert (H : 2 ^ ilog2 x < 2 ^ (ilog2 y + 1)) by lra.
  apply pow2_lt_inv in H. lia.
Qed.

Lemma roundHalfEven_bounds (q : Q) :
  (Qfloor q <= roundHalfEven q <= Qfloor q + 1)%Z.
Proof.
  unfold roundHalfEven.
  destruct (Qcompare (q - inject_Z (Qfloor q)) (1 # 2));
    try destruct (Z.even (Qfloor q)); lia.
Qed.

Lemma roundHalfEven_Z (n : Z) : roundHalfEven (inject_Z n) = n.
Proof.
  unfold roundHalfEven. rewrite Qfloor_Z.
  replace (Qcompare (inject_Z n - inject_Z n) (1 # 2)) with Lt; [reflexivity |].
  symmetry. apply Qlt_alt.
  assert (E : inject_Z n - inject_Z n == 0) by ring.
  rewrite E. reflexivity.
Qed.

Lemma roundHalfEven_mono (p q : Q) :
  p <= q -> (roundHalfEven p <= roundHalfEven q)%Z.
Proof.
  intros Hpq. pose proof (Qfloor_resp_le p q Hpq) as Hf.
  destruct (Z.eq_dec (Qfloor p) (Qfloor q)) as [E | NE].
  - unfold roundHalfEven. rewrite <- E.
    destruct (Qcompare (p - inject_Z (Qfloor p)) (1 # 2)) eqn:Cp;
      destruct (Qcompare (q - inject_Z (Qfloor p)) (1 # 2)) eqn:Cq;
      try destruct (Z.even (Qfloor p)); try lia; exfalso;
      repeat match goal with
        | H : Qcompare _ _ = Eq |- _ => apply Qeq_alt in H
        | H : Qcompare _ _ = Lt |- _ => apply Qlt_alt in H
        | H : Qcompare _ _ = Gt |- _ => apply Qgt_alt in H
        end; lra.
  - pose proof (roundHalfEven_bounds p). pose proof (roundHalfEven_bounds q).
    lia.
Qed.

Lemma roundPos_nonneg (x : Q) : 0 < x -> 0 <= roundPos x.
Proof.
  intros Hx. unfold roundPos.
  pose proof (pow2_pos (ulpExp x)) as He.
  pose proof (pow2_pos (- ulpExp x)) as He'.
  assert (H0 : (0 <= roundHalfEven (x * 2 ^ (- ulpExp x)))%Z).
  { rewrite <- (roundHalfEven_Z 0). apply roundHalfEven_mono.
    change (inject_Z 0) with 0. nra. }
  rewrite Zle_Qle in H0. change (inject_Z 0) with 0 in H0. set (r := inject_Z _) in *. nra.
Qed.

Lemma roundPos_mono (x y : Q) : 0 < x -> x <= y -> roundPos x <= roundPos y.
Proof.
  intros Hx Hxy. assert (Hy : 0 < y) by lra.
  pose proof (ilog2_mono x y Hx Hxy) as Hl.
  unfold roundPos.
  destruct (Z.eq_dec (ulpExp x) (ulpExp y)) as [E | NE].
  - rewrite E. pose proof (pow2_pos (ulpExp y)) as He.
    pose proof (pow2_pos (- ulpExp y)) as He'.
    assert (H : (roundHalfEven (x * 2 ^ (- ulpExp y))
                 <= roundHalfEven (y * 2 ^ (- ulpExp y)))%Z).
    { apply roundHalfEven_mono. nra. }
    rewrite Zle_Qle in H. set (rx := inject_Z _) in *. set (ry := inject_Z (roundHalfEven (y * _))) in *. nra.
  - assert (Hex : (ilog2 x - 52 <= ulpExp x)%Z) by (unfold ulpExp; lia).
    assert (Hey : ulpExp y = (ilog2 y - 52)%Z) by (unfold ulpExp in *; lia).
    assert (Hlt : (ulpExp x + 1 <= ulpExp y)%Z) by (unfold ulpExp in *; lia).
    destruct (ilog2_spec x Hx) as [_ Hx2]. destruct (ilog2_spec y Hy) as [Hy1 _].
    (* the scaled [x] stays below 2^53 *)
    assert (Hsx : x * 2 ^ (- ulpExp x) <= inject_Z (2 ^ 53)).
    { rewrite (Zpower_Qpower 2 53) by lia.
      assert (Hp : 2 ^ (ilog2 x + 1) * 2 ^ (- ulpExp x) <= 2 ^ 53).
      { rewrite <- pow2_add. apply pow2_le. lia. }
      pose proof (pow2_pos (- ulpExp x)). 
      change (inject_Z 2) with 2. nra. }
    (* the scaled [y] is at least 2^52 *)
    assert (Hsy : inject_Z (2 ^ 52) <= y * 2 ^ (- ulpExp y)).
    { rewrite (Zpower_Qpower 2 52) by lia.
      assert (Hp : 2 ^ 52 <= 2 ^ ilog2 y * 2 ^ (- ulpExp y)).
      { rewrite <- pow2_add. apply pow2_le. lia. }
      pose proof (pow2_pos (- ulpExp y)).
      change (inject_Z 2) with 2. nra. }
    apply roundHalfEven_mono in Hsx, Hsy. rewrite roundHalfEven_Z in Hsx, Hsy.
    rewrite Zle_Qle in Hsx, Hsy.
    rewrite (Zpower_Qpower 2 53) in Hsx by lia.
    rewrite (Zpower_Qpower 2 52) in Hsy by lia.
    change (inject_Z 2) with 2 in *.
    assert (Hstep : 2 ^ 53 * 2 ^ ulpExp x <= 2 ^ 52 * 2 ^ ulpExp y).
    { rewrite <- !pow2_add. apply pow2_le. lia. }
    pose proof (pow2_pos (ulpExp x)). pose proof (pow2_pos (ulpExp y)).
    set (rx := inject_Z (roundHalfEven (x * 2 ^ (- ulpExp x)))) in *.
    set (ry := inject_Z (roundHalfEven (y * 2 ^ (- ulpExp y)))) in *.
    set (px := 2 ^ ulpExp x) in *. set (py := 2 ^ ulpExp y) in *.
    set (c53 := 2 ^ 53) in *. set (c52 := 2 ^ 52) in *.
    apply Qle_trans with (c53 * px); [nra |].
    apply Qle_trans with (c52 * py); [exact Hstep | nra].
Qed.

Theorem round64_mono (x y : Q) : x <= y -> round64 x <= round64 y.
Proof.
  intros Hxy. unfold round64.
  destruct (Qcompare x 0) eqn:Cx; destruct (Qcompare y 0) eqn:Cy;
    repeat match goal with
      | H : Qcompare _ _ = Eq |- _ => apply Qeq_alt in H
      | H : Qcompare _ _ = Lt |- _ => apply Qlt_alt in H
      | H : Qcompare _ _ = Gt |- _ => apply Qgt_alt in H
      end; rewrite ?Qred_correct; try lra.
  - pose proof (roundPos_nonneg y). lra.
  - pose proof (roundPos_nonneg (- x)). lra.
  - pose proof (roundPos_mono (- y) (- x)). lra.
  - pose proof (roundPos_nonneg (- x)). pose proof (roundPos_nonneg y). lra.
  - apply roundPos_mono; lra.
Qed.

Lemma round64_ext (x y : Q) : x == y -> round64 x == round64 y.
Proof.
  intros E. apply Qle_antisym; apply round64_mono; lra.
Qed.

Lemma round64_nonneg (x : Q) : 0 <= x -> 0 <= round64 x.
Proof. intros H. apply (round64_mono 0 x H). Qed.

End NumFacts.

Module StrFacts.
Import Str.

Open Scope string_scope.


Lemma append_assoc (a b c : string) : (a ++ b) ++ c = a ++ b ++ c.
Proof. induction a; simpl; congruence. Qed.

Lemma length_append (a b : string) :
  String.length (a ++ b) = (String.length a + String.length b)%nat.
Proof. induction a; simpl; congruence. Qed.

Lemma substring_prefix (w rest : string) :
  substring 0 (String.length w) (w ++ rest) = w.
Proof.
  induction w as [| a w IH]; simpl.
  - destruct rest; reflexivity.
  - rewrite IH. reflexivity.
Qed.

Lemma toLowerCase_append (a b : string) :
  toLowerCase (a ++ b) = toLowerCase a ++ toLowerCase b.
Proof. induction a; simpl; congruence. Qed.

Lemma toLowerCase_length (s : string) :
  String.length (toLowerCase s) = String.length s.
Proof. induction s; simpl; congruence. Qed.

Lemma startsWith_spec (p s : string) :
  startsWith p s = true <-> exists rest, s = p ++ rest.
Proof.
  revert s. induction p as [| a p IH]; intros s; simpl.
  - split; [intros _; exists s; reflexivity | reflexivity].
  - destruct s as [| b s].
    + split; [discriminate | intros [rest H]; discriminate].
    + rewrite andb_true_iff, Ascii.eqb_eq, IH. split.
      * intros [-> [rest ->]]. exists rest. reflexivity.
      * intros [rest H]. injection H as -> ->. split; [reflexivity | eauto].
Qed.

(** [includes] is containment as a run of consecutive characters. *)
Lemma includes_spec (hay needle : string) :
  includes hay needle = true <->
  exists before after, hay = before ++ needle ++ after.
Proof.
  induction hay as [| c hay IH]; simpl.
  - rewrite orb_false_r, startsWith_spec. split.
    + intros [rest H]. exists "", rest. exact H.
    + intros [before [after H]]. destruct before; [| discriminate].
      exists after. exact H.
  - rewrite orb_true_iff, startsWith_spec, IH. split.
    + intros [[rest H] | [before [after H]]].
      * exists "", rest. exact H.
      * exists (String c before), after. simpl. congruence.
    + intros [before [after H]]. destruct before as [| b before].
      * left. exists after. exact H.
      * right. simpl in H. injection H as _ H. eauto.
Qed.

End StrFacts.

Module RegexFacts.
Import Str Regex RegexSem StrFacts.

Open Scope string_scope.

Lemma lastOf_append (prev : option ascii) (a b : string) :
  lastOf prev (a ++ b) = lastOf (lastOf prev a) b.
Proof. revert prev. induction a; intros prev; simpl; auto. Qed.

(** The matcher is sound: an answer of [run] comes from a match of the
    pattern followed by an answer of the continuation. *)
Lemma run_sound {A : Type} (r : regex) :
  forall prev s n (k : option ascii -> string -> nat -> option A) x,
    run r prev s n k = Some x ->
    exists w rest,
      s = w ++ rest /\ Matches r prev w rest /\
      k (lastOf prev w) rest (n + String.length w)%nat = Some x.
Proof.
  induction r as [| c | | r1 IH1 r2 IH2 | r1 IH1 r2 IH2 | r IH |];
    intros prev s n k x H; simpl in H.
  - exists "", s. rewrite Nat.add_0_r. repeat split; [constructor | exact H].
  - destruct s as [| a s]; [discriminate |].
    destruct (ciEq c a) eqn:E; [| discriminate].
    exists (String a ""), s. simpl. rewrite Nat.add_1_r.
    repeat split; [constructor; exact E | exact H].
  - destruct s as [| a s]; [discriminate |].
    destruct (isLineTerminator a) eqn:E; [discriminate |].
    exists (String a ""), s. simpl. rewrite Nat.add_1_r.
    repeat split; [constructor; exact E | exact H].
  - apply IH1 in H. destruct H as [w1 [rest1 [-> [M1 H]]]].
    apply IH2 in H. destruct H as [w2 [rest [-> [M2 H]]]].
    exists (w1 ++ w2), rest.
    rewrite append_assoc, lastOf_append, length_append, Nat.add_assoc.
    repeat split; [constructor; assumption | exact H].
  - destruct (run r1 prev s n k) eqn:E.
    + injection H as ->. apply IH1 in E. destruct E as [w [rest [-> [M E]]]].
      exists w, rest. repeat split; [apply MAltL; exact M | exact E].
    + apply IH2 in H. destruct H as [w [rest [-> [M H]]]].
      exists w, rest. repeat split; [apply MAltR; exact M | exact H].
  - destruct (run r prev s n k) eqn:E.
    + injection H as ->. apply IH in E. destruct E as [w [rest [-> [M E]]]].
      exists w, rest. repeat split; [apply MOptSome; exact M | exact E].
    + exists "", s. rewrite Nat.add_0_r. repeat split; [apply MOptNone | exact H].
  - destruct (atBoundary prev s) eqn:E; [| discriminate].
    exists "", s. rewrite Nat.add_0_r. repeat split; [constructor; exact E | exact H].
Qed.

Lemma exec_sound (r : regex) (prev : option ascii) (s : string) (len : nat) :
  exec r prev s = Some len ->
  exists w rest, s = w ++ rest /\ Matches r prev w rest /\ len = String.length w.
Proof.
  unfold exec. intros H. apply run_sound in H.
  destruct H as [w [rest [-> [M H]]]]. injection H as <-.
  exists w, rest. repeat split. exact M.
Qed.

(** Every element of a global match is a match of the pattern, at the place
    of the text where it stands. *)
Lemma scan_sound (r : regex) (s : string) :
  forall prev skip m,
    In m (scan r prev s skip) ->
    exists before after,
      s = before ++ m ++ after /\ Matches r (lastOf prev before) m after.
Proof.
  induction s as [| a s IH]; intros prev skip m Hin.
  - destruct skip; simpl in Hin; [| contradiction].
    destruct (exec r prev "") as [len |] eqn:E; [| contradiction].
    destruct Hin as [<- | []].
    apply exec_sound in E. destruct E as [w [rest [Hs [M ->]]]].
    destruct w; [| discriminate]. simpl in Hs. subst rest.
    exists "", "". simpl. split; [reflexivity | exact M].
  - assert (Htail : forall skip', In m (scan r (Some a) s skip') ->
              exists before after,
                String a s = before ++ m ++ after /\
                Matches r (lastOf prev before) m after).
    { intros skip' H. apply IH in H. destruct H as [before [after [-> M]]].
      exists (String a before), after. split; [reflexivity | exact M]. }
    destruct skip; cbn [scan] in Hin; [| eauto].
    destruct (exec r prev (String a s)) as [len |] eqn:E; [| eauto].
    destruct Hin as [<- | Hin]; [| eauto].
    apply exec_sound in E. destruct E as [w [rest [Hs [M ->]]]].
    rewrite Hs, substring_prefix.
    exists "", rest. split; [reflexivity | exact M].
Qed.

Lemma matchAll_sound (r : regex) (text m : string) :
  In m (matchAll r text) ->
  exists before after,
    text = before ++ m ++ after /\ Matches r (lastOf None before) m after.
Proof. apply scan_sound. Qed.

(** A match of an escaped literal is the literal up to letter case. *)
Lemma ciEq_lower (c a : ascii) : ciEq c a = true -> lowerChar a = lowerChar c.
Proof. unfold ciEq. intros H. apply Ascii.eqb_eq in H. congruence. Qed.



End RegexFacts.

Module NumOrder.
Import Num NumRep NumFacts.

Lemma leb_le (x y : number) : leb x y = true <-> x <= y.
Proof. apply Qle_bool_iff. Qed.

Lemma leb_gt (x y : number) : leb x y = false <-> y < x.
Proof.
  unfold leb. split; intros H.
  - apply Qnot_le_lt. intros Hc. apply Qle_bool_iff in Hc. congruence.
  - destruct (Qle_bool x y) eqn:E; [| reflexivity].
    apply Qle_bool_iff in E. lra.
Qed.

Lemma ltb_lt (x y : number) : ltb x y = true <-> x < y.
Proof. unfold ltb. rewrite negb_true_iff. apply leb_gt. Qed.

Lemma ltb_ge (x y : number) : ltb x y = false <-> y <= x.
Proof. unfold ltb. rewrite negb_false_iff. apply leb_le. Qed.





Lemma max_ge_l (x y : number) : x <= max x y.
Proof.
  unfold max. destruct (Qle_bool x y) eqn:E; [| lra].
  apply leb_le in E. exact E.
Qed.


Lemma max_lub (x y z : number) : x <= z -> y <= z -> max x y <= z.
Proof. unfold max. destruct (Qle_bool x y); auto. Qed.


Lemma add_mono (x x' y y' : number) : x <= x' -> y <= y' -> add x y <= add x' y'.
Proof. intros Hx Hy. apply round64_mono. lra. Qed.

Lemma mul_mono_l (x x' w : number) : 0 <= w -> x <= x' -> mul x w <= mul x' w.
Proof. intros Hw Hx. apply round64_mono. nra. Qed.

Lemma div_mono_l (x x' d : number) : 0 < d -> x <= x' -> div x d <= div x' d.
Proof.
  intros Hd Hx. apply round64_mono. unfold Qdiv.
  assert (Hi : 0 < / d) by (apply Qinv_lt_0_compat; exact Hd). nra.
Qed.


(** *** The grid of representable values *)

Lemma onGrid_ext (x y : Q) : x == y -> onGrid x -> onGrid y.
Proof. intros E [k H]. exists k. rewrite <- E. exact H. Qed.

Lemma onGrid_opp (x : Q) : onGrid x -> onGrid (- x).
Proof.
  intros [k H]. exists (- k)%Z. rewrite H, inject_Z_opp. ring.
Qed.

Lemma roundPos_onGrid (x : Q) : onGrid (roundPos x).
Proof.
  unfold roundPos. set (m := roundHalfEven _).
  assert (He : (0 <= ulpExp x + 1074)%Z) by (unfold ulpExp; lia).
  exists (m * 2 ^ (ulpExp x + 1074))%Z.
  rewrite inject_Z_mult, (Zpower_Qpower 2) by exact He.
  change (inject_Z 2) with 2.
  rewrite <- Qmult_assoc, <- pow2_add.
  replace (ulpExp x + 1074 + -1074)%Z with (ulpExp x) by lia. reflexivity.
Qed.

Lemma onGrid_0 : onGrid 0.
Proof. exists 0%Z. reflexivity. Qed.

Lemma onGrid_Z (z : Z) : onGrid (inject_Z z).
Proof.
  exists (z * 2 ^ 1074)%Z.
  rewrite inject_Z_mult, (Zpower_Qpower 2) by lia.
  change (inject_Z 2) with 2.
  rewrite <- Qmult_assoc, <- pow2_add. simpl (1074 + -1074)%Z.
  change (2 ^ 0) with 1. ring.
Qed.

Lemma round64_onGrid (x : Q) : onGrid (round64 x).
Proof.
  unfold round64. destruct (Qcompare x 0).
  - apply onGrid_0.
  - apply onGrid_ext with (- roundPos (- x)); [symmetry; apply Qred_correct |].
    apply onGrid_opp, roundPos_onGrid.
  - apply onGrid_ext with (roundPos x); [symmetry; apply Qred_correct |].
    apply roundPos_onGrid.
Qed.

Lemma onGrid_min (x y : number) : onGrid x -> onGrid y -> onGrid (min x y).
Proof. unfold min. destruct (Qle_bool x y); auto. Qed.

(** The smallest positive binary64 value rounds to itself. *)
Lemma round64_tiny : round64 (2 ^ (-1074)) == 2 ^ (-1074).
Proof. apply Qeq_bool_iff. vm_compute. reflexivity. Qed.

(** Two grid points that differ differ by a whole step, which rounding does
    not bring to zero: the sign of [y - x] is the order of [x] and [y]. *)
Lemma sub_nonpos_iff (x y : number) :
  onGrid x -> onGrid y -> (leb (sub y x) 0 = true <-> y <= x).
Proof.
  intros [kx Hx] [ky Hy]. rewrite leb_le. unfold sub. split.
  - intros H. apply Qnot_lt_le. intros Hlt.
    pose proof (pow2_pos (-1074)) as Hu.
    assert (Hk : (kx < ky)%Z).
    { apply Z.lt_nge. intros Hc. rewrite Zle_Qle in Hc.
      set (a := inject_Z kx) in *. set (b := inject_Z ky) in *. nra. }
    assert (Hstep : 2 ^ (-1074) <= y - x).
    { assert (Hk' : (kx + 1 <= ky)%Z) by lia.
      rewrite Zle_Qle, inject_Z_plus in Hk'. change (inject_Z 1) with 1 in Hk'.
      set (a := inject_Z kx) in *. set (b := inject_Z ky) in *. nra. }
    apply round64_mono in Hstep. rewrite round64_tiny in Hstep. lra.
  - intros H. apply (round64_mono (y - x) 0). lra.
Qed.

Lemma sub_pos_lt (x y : number) : leb (sub y x) 0 = false -> x < y.
Proof.
  rewrite leb_gt. unfold sub. intros H.
  apply Qnot_le_lt. intros Hc.
  assert (H0 : round64 (y - x) <= round64 0) by (apply round64_mono; lra).
  change (round64 0) with 0 in H0. lra.
Qed.

End NumOrder.

Module SortFacts.
Import Num NumRep NumFacts NumOrder Skills SkillsSpec.

Lemma insertBy_perm {A : Type} (cmp : A -> A -> number) (x : A) (l : list A) :
  Permutation (insertBy cmp x l) (x :: l).
Proof.
  induction l as [| y l IH]; simpl.
  - apply Permutation_refl.
  - destruct (leb (cmp x y) 0).
    + apply Permutation_refl.
    + apply perm_trans with (y :: x :: l); [| apply perm_swap].
      apply perm_skip. exact IH.
Qed.

Lemma sort_perm {A : Type} (cmp : A -> A -> number) (l : list A) :
  Permutation (sort cmp l) l.
Proof.
  induction l as [| x l IH]; simpl.
  - apply perm_nil.
  - apply perm_trans with (x :: sort cmp l); [apply insertBy_perm |].
    apply perm_skip. exact IH.
Qed.

Lemma insertBy_descending (x : SkillRecord) (l : list SkillRecord) :
  onGrid (confidence x) -> allOnGrid l -> descending l ->
  descending (insertBy byConfidence x l).
Proof.
  intros Hx Hl Hs. induction Hs as [| y l Hs IH Hy]; simpl.
  - constructor; [constructor | constructor].
  - inversion Hl as [| y' l' Gy Gl]; subst.
    unfold byConfidence at 1.
    destruct (leb (sub (confidence y) (confidence x)) 0) eqn:E.
    + apply sub_nonpos_iff in E; [| assumption | assumption].
      constructor; [constructor; assumption |].
      constructor; [exact E |].
      rewrite Forall_forall in Hy |- *. intros z Hz.
      apply Qle_trans with (confidence y); [apply Hy; exact Hz | exact E].
    + apply sub_pos_lt in E.
      constructor; [apply IH; exact Gl |].
      rewrite Forall_forall in Hy |- *. intros z Hz.
      apply (Permutation_in z (insertBy_perm byConfidence x l)) in Hz.
      destruct Hz as [<- | Hz]; [lra | apply Hy; exact Hz].
Qed.

Lemma sort_descending (l : list SkillRecord) :
  allOnGrid l -> descending (sort byConfidence l).
Proof.
  intros Hl. induction Hl as [| x l Hx Hl IH]; simpl.
  - constructor.
  - apply insertBy_descending; [exact Hx | | exact IH].
    unfold allOnGrid. rewrite Forall_forall in Hl |- *. intros z Hz.
    apply Hl. apply (Permutation_in z (sort_perm byConfidence l)). exact Hz.
Qed.

(** Insertion never moves a record past one of equal confidence. *)
Lemma insertBy_stable (c : number) (x : SkillRecord) (l : list SkillRecord) :
  withConfidence c (insertBy byConfidence x l) = withConfidence c (x :: l).
Proof.
  induction l as [| y l IH]; [reflexivity |].
  cbn [insertBy]. unfold byConfidence at 1.
  destruct (leb (sub (confidence y) (confidence x)) 0) eqn:E; [reflexivity |].
  apply sub_pos_lt in E.
  unfold withConfidence in *. cbn [filter] in *. rewrite IH.
  destruct (Qeq_bool (confidence y) c) eqn:Ey;
    destruct (Qeq_bool (confidence x) c) eqn:Ex; try reflexivity.
  apply Qeq_bool_iff in Ey, Ex. lra.
Qed.

Lemma sort_stable (c : number) (l : list SkillRecord) :
  withConfidence c (sort byConfidence l) = withConfidence c l.
Proof.
  induction l as [| x l IH]; [reflexivity |].
  cbn [sort fold_right]. fold (sort byConfidence l).
  rewrite insertBy_stable. unfold withConfidence in *. cbn [filter].
  rewrite IH. reflexivity.
Qed.

Lemma withConfidence_cons (c : number) (x : SkillRecord) (l : list SkillRecord) :
  withConfidence c (x :: l)
  = if Qeq_bool (confidence x) c then x :: withConfidence c l
    else withConfidence c l.
Proof. reflexivity. Qed.

Lemma withConfidence_In (c : number) (x : SkillRecord) (l : list SkillRecord) :
  In x (withConfidence c l) -> In x l.
Proof. unfold withConfidence. rewrite filter_In. tauto. Qed.

Lemma descending_head (x y : SkillRecord) (l : list SkillRecord) :
  descending (x :: l) -> In y (x :: l) -> confidence y <= confidence x.
Proof.
  intros Hd [<- | Hy]; [apply Qle_refl |].
  apply StronglySorted_inv in Hd. destruct Hd as [_ Hall].
  rewrite Forall_forall in Hall. apply Hall. exact Hy.
Qed.

(** The stable descending order is unique: whichever algorithm the engine's
    stable sort runs, it returns the list that [sort] computes. *)
Lemma stable_descending_unique (l1 : list SkillRecord) :
  forall l2,
    descending l1 -> descending l2 ->
    (forall c, withConfidence c l1 = withConfidence c l2) ->
    l1 = l2.
Proof.
  induction l1 as [| x l1 IH]; intros [| y l2] D1 D2 H.
  - reflexivity.
  - specialize (H (confidence y)). rewrite withConfidence_cons in H.
    rewrite Qeq_bool_refl in H. discriminate.
  - specialize (H (confidence x)). rewrite withConfidence_cons in H.
    rewrite Qeq_bool_refl in H. discriminate.
  - assert (Hxy : confidence x <= confidence y).
    { apply (descending_head y x l2 D2). apply (withConfidence_In (confidence x)).
      rewrite <- H, withConfidence_cons, Qeq_bool_refl. left. reflexivity. }
    assert (Hyx : confidence y <= confidence x).
    { apply (descending_head x y l1 D1). apply (withConfidence_In (confidence y)).
      rewrite H, withConfidence_cons, Qeq_bool_refl. left. reflexivity. }
    assert (E : Qeq_bool (confidence y) (confidence x) = true).
    { apply Qeq_bool_iff. apply Qle_antisym; assumption. }
    pose proof (H (confidence x)) as Hx.
    rewrite !withConfidence_cons, Qeq_bool_refl, E in Hx.
    injection Hx as -> _. f_equal.
    apply IH.
    + apply StronglySorted_inv in D1. tauto.
    + apply StronglySorted_inv in D2. tauto.
    + intros c. specialize (H c). rewrite !withConfidence_cons in H.
      destruct (Qeq_bool (confidence y) c); [injection H as H |]; exact H.
Qed.

End SortFacts.

Module DedupeFacts.
Import Str Skills SkillsSpec.

Open Scope string_scope.

Lemma hasName_app (n : string) (l1 l2 : list SkillRecord) :
  hasName n (l1 ++ l2) = hasName n l1 || hasName n l2.
Proof. apply existsb_app. Qed.

Lemma hasName_In (n : string) (l : list SkillRecord) :
  hasName n l = true <-> In n (map name l).
Proof.
  unfold hasName. rewrite existsb_exists, in_map_iff. split.
  - intros [s [Hs E]]. apply String.eqb_eq in E. eauto.
  - intros [s [E Hs]]. exists s. split; [exact Hs | apply String.eqb_eq; exact E].
Qed.

(** [findIndex] answers the index of [x] exactly when nothing before [x]
    satisfies the predicate. *)
Lemma findIndexFrom_at {A : Type} (p : A -> bool) (x : A) (pre post : list A) :
  p x = true ->
  forall i,
    Z.eqb (i + Z.of_nat (List.length pre)) (findIndexFrom p (pre ++ x :: post) i)
    = negb (existsb p pre).
Proof.
  intros Hx. induction pre as [| y pre IH]; intros i;
    cbn [app findIndexFrom existsb List.length].
  - rewrite Hx. apply Z.eqb_eq. simpl. lia.
  - rewrite Nat2Z.inj_succ. destruct (p y) eqn:Hy; cbn [orb negb].
    + apply Z.eqb_neq. lia.
    + rewrite <- (IH (i + 1)%Z). f_equal. lia.
Qed.

Lemma filterFrom_firstOfEachName (pre l : list SkillRecord) :
  filterFrom
    (fun skill index self =>
       Z.eqb index (findIndex (fun s => String.eqb (name s) (name skill)) self))
    (pre ++ l) l (Z.of_nat (List.length pre))
  = firstOfEachName pre l.
Proof.
  revert pre. induction l as [| x l IH]; intros pre; [reflexivity |].
  cbn [filterFrom firstOfEachName]. unfold findIndex at 1.
  pose proof (findIndexFrom_at (fun s => String.eqb (name s) (name x)) x pre l
                (String.eqb_refl _) 0%Z) as H.
  rewrite Z.add_0_l in H. rewrite H. clear H. fold (hasName (name x) pre).
  specialize (IH (push pre x)). unfold push in *.
  rewrite <- app_assoc, length_app, Nat.add_1_r, Nat2Z.inj_succ in IH.
  cbn [app] in IH. unfold Z.succ in IH. rewrite IH.
  destruct (hasName (name x) pre); reflexivity.
Qed.

(** The filter of the source keeps the first record of each name. *)
Lemma uniqueSkills_firstOfEachName (l : list SkillRecord) :
  uniqueSkills l = firstOfEachName [] l.
Proof. apply (filterFrom_firstOfEachName [] l). Qed.

Lemma firstOfEachName_fresh (l : list SkillRecord) :
  forall earlier r,
    In r (firstOfEachName earlier l) -> In r l /\ hasName (name r) earlier = false.
Proof.
  induction l as [| x l IH]; intros earlier r H; [contradiction |].
  cbn [firstOfEachName] in H.
  assert (Hrec : In r (firstOfEachName (push earlier x) l) ->
                 In r (x :: l) /\ hasName (name r) earlier = false).
  { intros Hr. apply IH in Hr. destruct Hr as [Hin Hn]. split; [right; exact Hin |].
    unfold push in Hn. rewrite hasName_app in Hn.
    apply orb_false_iff in Hn. tauto. }
  destruct (hasName (name x) earlier) eqn:E; [auto |].
  destruct H as [<- | H]; [| auto]. split; [left; reflexivity | exact E].
Qed.

Lemma firstOfEachName_NoDup (l : list SkillRecord) :
  forall earlier, NoDup (map name (firstOfEachName earlier l)).
Proof.
  induction l as [| x l IH]; intros earlier; [constructor |].
  cbn [firstOfEachName].
  destruct (hasName (name x) earlier); [apply IH |].
  cbn [map]. constructor; [| apply IH].
  intros Hin. apply in_map_iff in Hin. destruct Hin as [r [Er Hr]].
  apply firstOfEachName_fresh in Hr. destruct Hr as [_ Hn].
  unfold push in Hn. rewrite hasName_app in Hn. apply orb_false_iff in Hn.
  destruct Hn as [_ Hn]. rewrite Er in Hn. simpl in Hn.
  rewrite String.eqb_refl in Hn. discriminate.
Qed.

(** A kept record is the first record of its name. *)
Lemma firstOfEachName_find (l : list SkillRecord) :
  forall earlier r,
    In r (firstOfEachName earlier l) ->
    find (fun s => String.eqb (name s) (name r)) l = Some r.
Proof.
  induction l as [| x l IH]; intros earlier r H; [contradiction |].
  cbn [firstOfEachName] in H. cbn [find].
  assert (Hrec : In r (firstOfEachName (push earlier x) l) ->
                 (if String.eqb (name x) (name r) then Some x
                  else find (fun s => String.eqb (name s) (name r)) l) = Some r).
  { intros Hr. pose proof (firstOfEachName_fresh _ _ _ Hr) as [_ Hn].
    unfold push in Hn. rewrite hasName_app in Hn. apply orb_false_iff in Hn.
    destruct Hn as [_ Hn]. simpl in Hn. rewrite orb_false_r in Hn.
    rewrite Hn. eapply IH. exact Hr. }
  destruct (hasName (name x) earlier); [auto |].
  destruct H as [<- | H]; [| auto]. rewrite String.eqb_refl. reflexivity.
Qed.

(** The first record of a name that [earlier] does not have is kept. *)
Lemma find_firstOfEachName (l : list SkillRecord) :
  forall earlier n r,
    hasName n earlier = false ->
    find (fun s => String.eqb (name s) n) l = Some r ->
    In r (firstOfEachName earlier l).
Proof.
  induction l as [| x l IH]; intros earlier n r Hn H; [discriminate |].
  cbn [find] in H. cbn [firstOfEachName].
  destruct (String.eqb (name x) n) eqn:E.
  - injection H as <-. apply String.eqb_eq in E. rewrite E, Hn. left. reflexivity.
  - assert (Hr : In r (firstOfEachName (push earlier x) l)).
    { apply (IH _ n); [| exact H]. unfold push. rewrite hasName_app, Hn. simpl.
      rewrite E. reflexivity. }
    destruct (hasName (name x) earlier); [exact Hr | right; exact Hr].
Qed.

End DedupeFacts.

Module SkillsFacts.
Import Num NumRep NumFacts NumOrder.
Import Str Regex RegexSem StrFacts RegexFacts.
Import Skills SkillsSpec SortFacts DedupeFacts.

Open Scope string_scope.

(** *** The confidence estimate *)





Lemma baseConfidence_onGrid (n : nat) : onGrid (baseConfidence n).
Proof. apply onGrid_min; apply round64_onGrid. Qed.

Lemma boost_onGrid (context : string) (b : number) :
  onGrid b -> onGrid (boost context b).
Proof.
  intros H. unfold boost. apply onGrid_min; [| apply (onGrid_Z 1)].
  destruct (mentionsExpertise context); destruct (mentionsExperience context);
    try apply round64_onGrid; exact H.
Qed.

Lemma calculateConfidence_onGrid (text skill : string) :
  onGrid (calculateConfidence text skill).
Proof. apply boost_onGrid, baseConfidence_onGrid. Qed.



(** *** The two passes *)

Lemma dictionaryPass_fold (text : string) (table : list string) :
  forall acc,
    fold_left
      (fun extractedSkills skill =>
         if includes (toLowerCase text) skill
         then push extractedSkills (dictionaryRecord text skill)
         else extractedSkills)
      table acc
    = (acc ++ map (dictionaryRecord text)
                 (filter (includes (toLowerCase text)) table))%list.
Proof.
  induction table as [| skill table IH]; intros acc; cbn [fold_left filter].
  - rewrite app_nil_r. reflexivity.
  - rewrite IH. destruct (includes (toLowerCase text) skill); [| reflexivity].
    unfold push. rewrite <- app_assoc. reflexivity.
Qed.

(** The first pass emits the dictionary entries found, in table order. *)
Lemma dictionaryPass_table (text : string) :
  dictionaryPass text
  = map (dictionaryRecord text) (filter (includes (toLowerCase text)) TECH_SKILLS).
Proof. unfold dictionaryPass. rewrite dictionaryPass_fold. reflexivity. Qed.

Lemma addMatch_extends (l : list SkillRecord) (m : string) :
  exists added, addMatch l m = (l ++ added)%list /\ Forall fromPattern added.
Proof.
  unfold addMatch. destruct (negb (hasName _ l)).
  - eexists. split; [reflexivity |]. constructor; [reflexivity | constructor].
  - exists []. rewrite app_nil_r. split; [reflexivity | constructor].
Qed.

Lemma fold_extends {B : Type} (step : list SkillRecord -> B -> list SkillRecord) :
  (forall l b, exists added, step l b = (l ++ added)%list /\ Forall fromPattern added) ->
  forall bs l,
    exists added, fold_left step bs l = (l ++ added)%list /\ Forall fromPattern added.
Proof.
  intros Hstep bs. induction bs as [| b bs IH]; intros l; cbn [fold_left].
  - exists []. rewrite app_nil_r. split; [reflexivity | constructor].
  - destruct (Hstep l b) as [a1 [-> F1]]. destruct (IH (l ++ a1)%list) as [a2 [-> F2]].
    exists (a1 ++ a2)%list. rewrite app_assoc. split; [reflexivity |].
    apply Forall_app. split; assumption.
Qed.

(** The second pass only pushes, and only records of confidence 0.8. *)
Lemma patternPass_extends (text : string) (l : list SkillRecord) :
  exists added, patternPass text l = (l ++ added)%list /\ Forall fromPattern added.
Proof.
  unfold patternPass. apply fold_extends. intros l' pattern.
  apply fold_extends. apply addMatch_extends.
Qed.

Lemma extractedSkills_onGrid (text : string) : allOnGrid (extractedSkills text).
Proof.
  unfold extractedSkills.
  destruct (patternPass_extends text (dictionaryPass text)) as [added [-> F]].
  apply Forall_app. split.
  - rewrite dictionaryPass_table. apply Forall_forall. intros s Hs.
    apply in_map_iff in Hs. destruct Hs as [skill [<- _]].
    apply calculateConfidence_onGrid.
  - apply Forall_forall. intros s Hs. rewrite Forall_forall in F.
    rewrite (F s Hs). apply round64_onGrid.
Qed.

Lemma uniqueSkills_incl (l : list SkillRecord) (r : SkillRecord) :
  In r (uniqueSkills l) -> In r l.
Proof.
  rewrite uniqueSkills_firstOfEachName. intros H.
  apply firstOfEachName_fresh in H. tauto.
Qed.

Lemma In_extractSkillsFromText (text : string) (r : SkillRecord) :
  In r (extractSkillsFromText text) <-> In r (uniqueSkills (extractedSkills text)).
Proof.
  unfold extractSkillsFromText. split; intros H.
  - apply (Permutation_in r (sort_perm byConfidence _)). exact H.
  - apply (Permutation_in r (Permutation_sym (sort_perm byConfidence _))). exact H.
Qed.

End SkillsFacts.

(** ** The extraction claims *)

Module SkillsClaims.
Import Num NumRep NumFacts NumOrder.
Import Str Regex RegexSem StrFacts RegexFacts.
Import Skills SkillsSpec SortFacts DedupeFacts SkillsFacts.

Open Scope string_scope.

Lemma find_app {A : Type} (p : A -> bool) (l1 l2 : list A) :
  find p (l1 ++ l2)%list
  = match find p l1 with Some x => Some x | None => find p l2 end.
Proof.
  induction l1 as [| x l1 IH]; [reflexivity |].
  cbn [app find]. destruct (p x); [reflexivity | exact IH].
Qed.

(** The first record of a dictionary name that the text contains is the
    record of the dictionary pass. *)
Lemma find_dictionary_name (text skill : string) :
  In skill TECH_SKILLS -> includes (toLowerCase text) skill = true ->
  find (fun s => String.eqb (name s) skill) (extractedSkills text)
  = Some (dictionaryRecord text skill).
Proof.
  intros Hin Hinc. unfold extractedSkills.
  destruct (patternPass_extends text (dictionaryPass text)) as [added [-> _]].
  rewrite find_app.
  assert (Hd : In (dictionaryRecord text skill) (dictionaryPass text)).
  { rewrite dictionaryPass_table. apply in_map. apply filter_In. tauto. }
  destruct (find (fun s => String.eqb (name s) skill) (dictionaryPass text))
    as [x |] eqn:E.
  - apply find_some in E. destruct E as [Hx En]. apply String.eqb_eq in En.
    rewrite dictionaryPass_table in Hx. apply in_map_iff in Hx.
    destruct Hx as [skill' [<- _]]. simpl in En. subst skill'. reflexivity.
  - apply (find_none _ _ E) in Hd. simpl in Hd.
    rewrite String.eqb_refl in Hd. discriminate.
Qed.

(** C1.  For every text, the result of [extractSkillsFromText] has no two
    records of the same name and is in descending order of confidence; the
    sort is stable: the records of any one confidence stand in the order in
    which they were first encountered, where the encounter order is that of
    the pushes, the dictionary pass (in table order) before the pattern
    pass. *)
Theorem extractSkillsFromText_unique_sorted_stable (text : string) :
  let result := extractSkillsFromText text in
  let encountered := firstOfEachName [] (extractedSkills text) in
  NoDup (map name result) /\
  descending result /\
  Permutation result encountered /\
  (forall c, withConfidence c result = withConfidence c encountered) /\
  (exists added,
     extractedSkills text = (dictionaryPass text ++ added)%list /\
     Forall fromPattern added) /\
  dictionaryPass text
  = map (dictionaryRecord text) (filter (includes (toLowerCase text)) TECH_SKILLS).
Proof.
  cbv zeta. unfold extractSkillsFromText.
  rewrite <- uniqueSkills_firstOfEachName.
  pose proof (sort_perm byConfidence (uniqueSkills (extractedSkills text))) as HP.
  repeat split.
  - apply (Permutation_NoDup (Permutation_map name (Permutation_sym HP))).
    rewrite uniqueSkills_firstOfEachName. apply firstOfEachName_NoDup.
  - apply sort_descending. unfold allOnGrid. apply Forall_forall. intros s Hs.
    apply uniqueSkills_incl in Hs.
    pose proof (extractedSkills_onGrid text) as G. unfold allOnGrid in G.
    rewrite Forall_forall in G. apply G. exact Hs.
  - exact HP.
  - intros c. apply sort_stable.
  - apply patternPass_extends.
  - apply dictionaryPass_table.
Qed.

(** C9.  When the dictionary pass emits a record for a skill name, the
    result holds exactly one record of that name and it is the record of
    the dictionary pass, with the confidence [calculateConfidence] gave it,
    whatever the pattern pass finds later: of each name the result keeps
    the record encountered first. *)
Theorem dictionary_confidence_kept (text skill : string) :
  In skill TECH_SKILLS ->
  includes (toLowerCase text) skill = true ->
  In (dictionaryRecord text skill) (extractSkillsFromText text) /\
  (forall r, In r (extractSkillsFromText text) -> name r = skill ->
     r = dictionaryRecord text skill /\
     confidence r = calculateConfidence text skill) /\
  (forall r, In r (extractSkillsFromText text) ->
     find (fun s => String.eqb (name s) (name r)) (extractedSkills text) = Some r).
Proof.
  intros Hin Hinc.
  pose proof (find_dictionary_name text skill Hin Hinc) as Hfind.
  assert (Hkeep : forall r, In r (extractSkillsFromText text) ->
            find (fun s => String.eqb (name s) (name r)) (extractedSkills text)
            = Some r).
  { intros r Hr. apply In_extractSkillsFromText in Hr.
    rewrite uniqueSkills_firstOfEachName in Hr.
    eapply firstOfEachName_find. exact Hr. }
  split; [| split; [| exact Hkeep]].
  - apply In_extractSkillsFromText. rewrite uniqueSkills_firstOfEachName.
    apply (find_firstOfEachName _ [] skill); [reflexivity | exact Hfind].
  - intros r Hr En. apply Hkeep in Hr. rewrite En, Hfind in Hr.
    injection Hr as <-. split; reflexivity.
Qed.

Lemma dictionary_confidence_kept_witness :
  In "mongodb" TECH_SKILLS /\
  includes (toLowerCase "I use MongoDB") "mongodb" = true /\
  forall r, In r (extractSkillsFromText "I use MongoDB") -> name r = "mongodb" ->
    confidence r = calculateConfidence "I use MongoDB" "mongodb".
Proof.
  assert (Hin : In "mongodb" TECH_SKILLS) by (simpl; tauto).
  assert (Hinc : includes (toLowerCase "I use MongoDB") "mongodb" = true)
    by reflexivity.
  split; [exact Hin | split; [exact Hinc |]].
  intros r Hr En.
  apply (dictionary_confidence_kept "I use MongoDB" "mongodb" Hin Hinc); assumption.
Defined.





End SkillsClaims.

Module MatchFacts.
Import Num NumRep NumFacts NumOrder Str StrFacts Match MatchSpec.

Open Scope string_scope.

(** *** Skills *)

Lemma includesString_userHas (userSkills : list Skills.SkillRecord)
    (r : RequiredSkill) :
  includesString (map (fun s => toLowerCase (Skills.name s)) userSkills)
                 (toLowerCase (reqName r))
  = userHas userSkills r.
Proof.
  unfold includesString, userHas. induction userSkills as [| s l IH]; simpl.
  - reflexivity.
  - rewrite IH, (String.eqb_sym (toLowerCase (reqName r))). reflexivity.
Qed.

Lemma weightOf_pos (r : RequiredSkill) : (0 < weightOf r)%Z.
Proof. unfold weightOf. destruct (mandatory r); lia. Qed.

Lemma skillStep_fold (userSkills : list Skills.SkillRecord)
    (requiredSkills : list RequiredSkill) :
  forall matchCount totalWeight,
    fold_left (skillStep (map (fun s => toLowerCase (Skills.name s)) userSkills))
              requiredSkills (matchCount, totalWeight)
    = ((matchCount + matchedWeightOf userSkills requiredSkills)%Z,
       (totalWeight + totalWeightOf requiredSkills)%Z).
Proof.
  induction requiredSkills as [| r rs IH]; intros m t; cbn [fold_left].
  - unfold matchedWeightOf. simpl. f_equal; lia.
  - unfold skillStep at 2. rewrite includesString_userHas. fold (weightOf r).
    unfold matchedWeightOf in *. cbn [filter totalWeightOf].
    destruct (userHas userSkills r); rewrite IH; cbn [totalWeightOf];
      f_equal; lia.
Qed.

Lemma totalWeightOf_pos (requiredSkills : list RequiredSkill) :
  requiredSkills <> [] -> (0 < totalWeightOf requiredSkills)%Z.
Proof.
  destruct requiredSkills as [| r rs]; [congruence |]. intros _.
  assert (H : (0 <= totalWeightOf rs)%Z).
  { induction rs as [| r' rs IH]; simpl; [lia |].
    pose proof (weightOf_pos r'). lia. }
  simpl. pose proof (weightOf_pos r). lia.
Qed.

Lemma matchedWeightOf_bounds (userSkills : list Skills.SkillRecord)
    (requiredSkills : list RequiredSkill) :
  (0 <= matchedWeightOf userSkills requiredSkills <= totalWeightOf requiredSkills)%Z.
Proof.
  unfold matchedWeightOf.
  induction requiredSkills as [| r rs IH]; simpl; [lia |].
  pose proof (weightOf_pos r).
  destruct (userHas userSkills r); simpl; lia.
Qed.

Lemma userHas_spec (userSkills : list Skills.SkillRecord) (r : RequiredSkill) :
  userHas userSkills r = true <->
  exists s, In s userSkills /\
            toLowerCase (Skills.name s) = toLowerCase (reqName r).
Proof.
  unfold userHas. rewrite existsb_exists.
  split; intros [s [Hs E]]; exists s; (split; [exact Hs |]);
    apply String.eqb_eq; exact E.
Qed.

Lemma isEmpty_true {A : Type} (l : list A) : isEmpty l = true <-> l = [].
Proof. destruct l; simpl; split; congruence. Qed.

Lemma isEmpty_false {A : Type} (l : list A) : isEmpty l = false <-> l <> [].
Proof. destruct l; simpl; split; congruence. Qed.

(** *** Rounding of the values around 1 *)

Lemma round64_1 : round64 1 = 1.
Proof. reflexivity. Qed.

Lemma round64_unit (x : Q) : 0 <= x -> x <= 1 -> 0 <= round64 x /\ round64 x <= 1.
Proof.
  intros H0 H1. split; [apply round64_nonneg; exact H0 |].
  rewrite <- round64_1. apply round64_mono. exact H1.
Qed.

Lemma div_unit (x d : number) : 0 <= x -> x <= d -> 0 < d ->
  0 <= div x d /\ div x d <= 1.
Proof.
  intros H0 Hd Hp. apply round64_unit.
  - apply Qle_shift_div_l; [exact Hp | lra].
  - apply Qle_shift_div_r; [exact Hp | lra].
Qed.

End MatchFacts.

Module ScoreFacts.
Import Num NumRep NumFacts NumOrder Str StrFacts Match MatchSpec MatchFacts.

Open Scope string_scope.

Ltac closed_le := apply Qle_bool_iff; vm_compute; reflexivity.
Ltac closed_lt := apply Qlt_alt; vm_compute; reflexivity.
Ltac closed_eq := apply Qeq_bool_iff; vm_compute; reflexivity.

(** *** Experience *)

Lemma addYears_elapsed (now : Z) (total : number) (e : ExperienceEntry) :
  addYears now total e = add total (max 0 (elapsedYears now e)).
Proof. reflexivity. Qed.

Lemma fold_addYears_nonneg (now : Z) (entries : list ExperienceEntry) :
  forall total, 0 <= total -> 0 <= fold_left (addYears now) entries total.
Proof.
  induction entries as [| e es IH]; intros total H; cbn [fold_left]; [exact H |].
  apply IH. rewrite addYears_elapsed. apply round64_nonneg.
  pose proof (max_ge_l 0 (elapsedYears now e)). lra.
Qed.

Lemma totalYears_nonneg (now : Z) (entries : list ExperienceEntry) :
  0 <= totalYears now entries.
Proof. unfold totalYears. apply fold_addYears_nonneg. apply Qle_refl. Qed.

Lemma experienceRange_cases (level : string) :
  experienceRange level = (0, 2) \/ experienceRange level = (2, 5) \/
  experienceRange level = (5, 10) \/ experienceRange level = (10, 100) \/
  experienceRange level = (0, 100).
Proof.
  unfold experienceRange.
  destruct (String.eqb level "entry"); [tauto |].
  destruct (String.eqb level "mid"); [tauto |].
  destruct (String.eqb level "senior"); [tauto |].
  destruct (String.eqb level "executive"); tauto.
Qed.

Lemma experienceRange_ordered (level : string) :
  0 <= fst (experienceRange level) /\
  fst (experienceRange level) <= snd (experienceRange level) /\
  0 < snd (experienceRange level).
Proof.
  destruct (experienceRange_cases level) as [E | [E | [E | [E | E]]]];
    rewrite E; simpl; repeat split; first [closed_le | closed_lt].
Qed.


(** The score for the entries [entries], total [total] and range
    [(minYears, maxYears)], as the source computes it after the table
    look-up. *)
Lemma calculateExperienceMatch_unfold (now : Z) (user : User) (job : Job) :
  calculateExperienceMatch now user job
  = let userExperience := orElse (experience user) [] in
    let total := totalYears now userExperience in
    let minYears := fst (experienceRange (experienceLevel job)) in
    let maxYears := snd (experienceRange (experienceLevel job)) in
    if isEmpty userExperience then lit (5 # 10)
    else if geb total minYears && leb total maxYears then 1
    else if ltb total minYears then max 0 (div total minYears)
    else max (lit (7 # 10)) (sub 1 (div (sub total maxYears) maxYears)).
Proof.
  unfold calculateExperienceMatch.
  destruct (experienceRange (experienceLevel job)) as [lo hi]. reflexivity.
Qed.

Lemma overqualified_le_1 (total maxYears : number) :
  0 < maxYears -> maxYears <= total ->
  sub 1 (div (sub total maxYears) maxYears) <= 1.
Proof.
  intros Hm Ht. unfold sub at 1. rewrite <- round64_1 at 2.
  apply round64_mono.
  assert (H : 0 <= div (sub total maxYears) maxYears).
  { apply round64_nonneg. apply Qle_shift_div_l; [exact Hm |].
    assert (H0 : 0 <= sub total maxYears) by (apply round64_nonneg; lra).
    lra. }
  lra.
Qed.

Lemma calculateExperienceMatch_unit (now : Z) (user : User) (job : Job) :
  0 <= calculateExperienceMatch now user job /\
  calculateExperienceMatch now user job <= 1.
Proof.
  rewrite calculateExperienceMatch_unfold. cbv zeta.
  pose proof (totalYears_nonneg now (orElse (experience user) [])) as Ht.
  destruct (experienceRange_ordered (experienceLevel job)) as [Hlo [Hlh Hhi]].
  set (total := totalYears now _) in *.
  set (lo := fst _) in *. set (hi := snd _) in *.
  destruct (isEmpty _); [split; closed_le |].
  destruct (geb total lo && leb total hi) eqn:E1; [split; closed_le |].
  destruct (ltb total lo) eqn:E2.
  - apply ltb_lt in E2. split; [apply max_ge_l |].
    apply max_lub; [closed_le |].
    apply div_unit; lra.
  - apply ltb_ge in E2. split.
    + apply Qle_trans with (lit (7 # 10)); [closed_le | apply max_ge_l].
    + apply max_lub; [closed_le |].
      apply overqualified_le_1; [exact Hhi |].
      apply andb_false_iff in E1. destruct E1 as [E1 | E1].
      * unfold geb in E1. apply leb_gt in E1. lra.
      * apply leb_gt in E1. lra.
Qed.

(** *** Skills, location and type *)

Lemma calculateSkillsMatch_eq (userSkills : list Skills.SkillRecord)
    (requiredSkills : list RequiredSkill) :
  calculateSkillsMatch userSkills requiredSkills
  = if isEmpty userSkills || isEmpty requiredSkills then 0
    else div (ofZ (matchedWeightOf userSkills requiredSkills))
             (ofZ (totalWeightOf requiredSkills)).
Proof.
  unfold calculateSkillsMatch.
  destruct (isEmpty userSkills) eqn:Eu; [reflexivity |].
  destruct (isEmpty requiredSkills) eqn:Er; [reflexivity |]. cbn [orb].
  rewrite skillStep_fold. cbn [Z.add].
  apply isEmpty_false in Er. apply totalWeightOf_pos in Er.
  apply Z.ltb_lt in Er. rewrite Er. reflexivity.
Qed.

Lemma calculateSkillsMatch_unit (userSkills : list Skills.SkillRecord)
    (requiredSkills : list RequiredSkill) :
  0 <= calculateSkillsMatch userSkills requiredSkills /\
  calculateSkillsMatch userSkills requiredSkills <= 1.
Proof.
  rewrite calculateSkillsMatch_eq.
  destruct (isEmpty userSkills || isEmpty requiredSkills) eqn:E;
    [split; closed_le |].
  apply orb_false_iff in E. destruct E as [_ Er].
  apply isEmpty_false in Er. apply totalWeightOf_pos in Er.
  pose proof (matchedWeightOf_bounds userSkills requiredSkills) as [H0 H1].
  unfold ofZ. apply div_unit.
  - change 0 with (inject_Z 0). rewrite <- Zle_Qle. exact H0.
  - rewrite <- Zle_Qle. exact H1.
  - change 0 with (inject_Z 0). rewrite <- Zlt_Qlt. exact Er.
Qed.

Lemma calculateLocationMatch_unit (user : User) (job : Job) (score : number) :
  calculateLocationMatch user job = Some score -> 0 <= score /\ score <= 1.
Proof.
  unfold calculateLocationMatch.
  destruct (remote job); [intros H; injection H as <-; split; closed_le |].
  destruct (isEmpty _); [intros H; injection H as <-; split; closed_le |].
  destruct (location job); [| discriminate].
  destruct (existsb _ _); intros H; injection H as <-; split; closed_le.
Qed.


Lemma calculateJobTypeMatch_unit (user : User) (job : Job) :
  0 <= calculateJobTypeMatch user job /\ calculateJobTypeMatch user job <= 1.
Proof.
  unfold calculateJobTypeMatch.
  destruct (isEmpty _); [split; closed_le |].
  destruct (includesString _ _); split; closed_le.
Qed.

(** *** The weighted sum *)

Lemma mul_weight (score w : number) :
  0 <= score -> score <= 1 -> 0 <= w -> round64 w == w ->
  0 <= mul score w /\ mul score w <= w.
Proof.
  intros H0 H1 Hw Hr. split.
  - apply round64_nonneg. nra.
  - rewrite <- Hr at 2. apply round64_mono. nra.
Qed.


Lemma weightSum_pos : 0 < weightSum.
Proof. closed_lt. Qed.

Lemma weightedSum_bounds (s e l t : number) :
  0 <= s <= 1 -> 0 <= e <= 1 -> 0 <= l <= 1 -> 0 <= t <= 1 ->
  0 <= weightedSum s e l t /\ weightedSum s e l t <= weightSum.
Proof.
  intros [Hs0 Hs1] [He0 He1] [Hl0 Hl1] [Ht0 Ht1].
  destruct (mul_weight s (lit (4 # 10)) Hs0 Hs1) as [A0 A1];
    [closed_le | closed_eq |].
  destruct (mul_weight e (lit (3 # 10)) He0 He1) as [B0 B1];
    [closed_le | closed_eq |].
  destruct (mul_weight l (lit (2 # 10)) Hl0 Hl1) as [C0 C1];
    [closed_le | closed_eq |].
  destruct (mul_weight t (lit (1 # 10)) Ht0 Ht1) as [D0 D1];
    [closed_le | closed_eq |].
  unfold weightedSum, weightSum. split.
  - repeat (apply round64_nonneg; apply Qle_trans with (0 + 0);
            [lra | apply Qplus_le_compat; [| assumption]]).
    lra.
  - apply add_mono; [| exact D1]. apply add_mono; [| exact C1].
    apply add_mono; [| exact B1]. apply add_mono; [lra | exact A1].
Qed.

Lemma accumulated_eq (s e l t : number) :
  accumulated s e l t = (weightedSum s e l t, weightSum).
Proof.
  cbv beta iota zeta delta [accumulated accumulate weightedSum weightSum].
  reflexivity.
Qed.

Lemma normalise_accumulated (s e l t : number) :
  normalise (accumulated s e l t) = div (weightedSum s e l t) weightSum.
Proof.
  rewrite accumulated_eq. unfold normalise.
  replace (gtb weightSum 0) with true; [reflexivity |].
  symmetry. apply ltb_lt. exact weightSum_pos.
Qed.

End ScoreFacts.

(** ** The scoring claims *)

Module MatchClaims.
Import Num NumRep NumFacts NumOrder Str StrFacts.
Import Match MatchSpec MatchFacts ScoreFacts.

Open Scope string_scope.

(** C3.  [calculateSkillsMatch] returns 0 when either list is empty.
    Otherwise it returns the matched weight divided by the total weight,
    where every required skill weighs 2 if mandatory and 1 if not, the total
    weight (which is positive) sums all of them, and the matched weight sums
    those whose name is, up to letter case, the name of a user skill. *)
Theorem calculateSkillsMatch_spec (userSkills : list Skills.SkillRecord)
    (requiredSkills : list RequiredSkill) :
  (userSkills = [] \/ requiredSkills = [] ->
   calculateSkillsMatch userSkills requiredSkills = 0) /\
  (userSkills <> [] -> requiredSkills <> [] ->
   calculateSkillsMatch userSkills requiredSkills
   = div (ofZ (matchedWeightOf userSkills requiredSkills))
         (ofZ (totalWeightOf requiredSkills)) /\
   (0 < totalWeightOf requiredSkills)%Z) /\
  matchedWeightOf userSkills requiredSkills
  = totalWeightOf (filter (userHas userSkills) requiredSkills) /\
  (forall r, weightOf r = if mandatory r then 2%Z else 1%Z) /\
  (forall r, userHas userSkills r = true <->
     exists s, In s userSkills /\
               toLowerCase (Skills.name s) = toLowerCase (reqName r)).
Proof.
  rewrite calculateSkillsMatch_eq. repeat split.
  - intros [-> | ->]; [reflexivity |]. rewrite orb_true_r. reflexivity.
  - apply isEmpty_false in H, H0. rewrite H, H0. reflexivity.
  - apply totalWeightOf_pos. assumption.
  - apply userHas_spec.
  - apply userHas_spec.
Qed.


(** C5.  [calculateLocationMatch] returns 1 whenever the job is remote.  For
    a job on site it returns 0.5 when the user declared no preferred
    location; and, the job having a location, 1 when some preferred location
    contains the job's location or is contained in it, up to letter case,
    and 0.3 when none does. *)
Theorem calculateLocationMatch_spec (user : User) (job : Job) :
  (remote job = true -> calculateLocationMatch user job = Some 1) /\
  (remote job = false -> preferredLocations user = [] ->
   calculateLocationMatch user job = Some (lit (5 # 10))) /\
  (forall l,
     remote job = false -> preferredLocations user <> [] ->
     location job = Some l ->
     ((exists loc, In loc (preferredLocations user) /\
                   (containsIgnoringCase l loc \/ containsIgnoringCase loc l)) ->
      calculateLocationMatch user job = Some 1) /\
     (~ (exists loc, In loc (preferredLocations user) /\
                     (containsIgnoringCase l loc \/ containsIgnoringCase loc l)) ->
      calculateLocationMatch user job = Some (lit (3 # 10)))).
Proof.
  unfold calculateLocationMatch.
  replace (orElse (locations (orElse (preferences user) (mkPreferences None None))) [])
    with (preferredLocations user)
    by (unfold preferredLocations; destruct (preferences user); reflexivity).
  split; [intros ->; reflexivity |].
  split; [intros -> ->; reflexivity |].
  intros l -> Hne ->. apply isEmpty_false in Hne. rewrite Hne.
  set (found := existsb _ _).
  assert (Hfound : found = true <->
            exists loc, In loc (preferredLocations user) /\
              (containsIgnoringCase l loc \/ containsIgnoringCase loc l)).
  { unfold found. rewrite existsb_exists.
    split; intros [loc [Hin H]]; exists loc; (split; [exact Hin |]).
    - apply orb_true_iff in H. rewrite !includes_spec in H. exact H.
    - apply orb_true_iff. rewrite !includes_spec. exact H. }
  split.
  - intros H. apply Hfound in H. rewrite H. reflexivity.
  - intros H. destruct found; [exfalso; apply H, Hfound; reflexivity | reflexivity].
Qed.

(** C6.  [calculateJobTypeMatch] returns 0.8 when the user declared no
    preferred job type, 1 when the job's type is one of the preferred types,
    and 0.5 when it is not. *)
Theorem calculateJobTypeMatch_spec (user : User) (job : Job) :
  (preferredTypes user = [] -> calculateJobTypeMatch user job = lit (8 # 10)) /\
  (preferredTypes user <> [] -> In (type job) (preferredTypes user) ->
   calculateJobTypeMatch user job = 1) /\
  (preferredTypes user <> [] -> ~ In (type job) (preferredTypes user) ->
   calculateJobTypeMatch user job = lit (5 # 10)).
Proof.
  unfold calculateJobTypeMatch.
  replace (orElse (jobTypes (orElse (preferences user) (mkPreferences None None))) [])
    with (preferredTypes user)
    by (unfold preferredTypes; destruct (preferences user); reflexivity).
  assert (Hin : includesString (preferredTypes user) (type job) = true <->
                In (type job) (preferredTypes user)).
  { unfold includesString. rewrite existsb_exists. split.
    - intros [x [Hx E]]. apply String.eqb_eq in E. subst x. exact Hx.
    - intros H. exists (type job). split; [exact H | apply String.eqb_refl]. }
  split; [intros ->; reflexivity |].
  split; intros Hne H; apply isEmpty_false in Hne; rewrite Hne.
  - apply Hin in H. rewrite H. reflexivity.
  - destruct (includesString _ _); [exfalso; apply H, Hin; reflexivity | reflexivity].
Qed.

(** C10.  For a user whose preferences, or whose list of preferred
    locations, is missing or empty, and a job that is not remote,
    [calculateLocationMatch] returns 0.5 whatever the job's [location] field
    holds, and so also when the field is absent. *)
Theorem calculateLocationMatch_ignores_location (user : User) (job : Job) :
  remote job = false ->
  (preferences user = None \/
   exists p, preferences user = Some p /\
             (locations p = None \/ locations p = Some [])) ->
  calculateLocationMatch user job = Some (lit (5 # 10)) /\
  calculateLocationMatch user (withLocation job None) = Some (lit (5 # 10)) /\
  forall l, calculateLocationMatch user (withLocation job l) = Some (lit (5 # 10)).
Proof.
  intros Hr Hp.
  assert (H : forall l, calculateLocationMatch user (withLocation job l)
                        = Some (lit (5 # 10))).
  { intros l. unfold calculateLocationMatch, withLocation. cbn [remote].
    rewrite Hr.
    destruct Hp as [E | [p [E [E' | E']]]]; rewrite E; cbn [orElse];
      try rewrite E'; reflexivity. }
  split; [| split; [apply H | exact H]].
  specialize (H (location job)). destruct job; exact H.
Qed.

Lemma calculateLocationMatch_ignores_location_witness :
  remote (mkJob None "mid" false None "full-time") = false /\
  preferences blankUser = None /\
  calculateLocationMatch blankUser (mkJob None "mid" false None "full-time")
  = Some (lit (5 # 10)).
Proof.
  split; [reflexivity | split; [reflexivity |]].
  apply (calculateLocationMatch_ignores_location
           blankUser (mkJob None "mid" false None "full-time") eq_refl
           (or_introl eq_refl)).
Defined.




End MatchClaims.

Module NumCheckFacts.
Import Num NumCheck.

(** The literals are the binary64 values of their decimals: 0.1 is
    0x1.999999999999ap-4, 0.3 is 0x1.3333333333333p-2, 0.7 is
    0x1.6666666666666p-1, 0.9 is 0x1.ccccccccccccdp-1. *)
Example literals_binary64 :
  lit (1 # 10) == ofSpecFloat (S754_finite false 7205759403792794 (-56)) /\
  lit (2 # 10) == ofSpecFloat (S754_finite false 7205759403792794 (-55)) /\
  lit (4 # 10) == ofSpecFloat (S754_finite false 7205759403792794 (-54)) /\
  lit (8 # 10) == ofSpecFloat (S754_finite false 7205759403792794 (-53)) /\
  lit (3 # 10) == ofSpecFloat (S754_finite false 5404319552844595 (-54)) /\
  lit (7 # 10) == ofSpecFloat (S754_finite false 6305039478318694 (-53)) /\
  lit (9 # 10) == ofSpecFloat (S754_finite false 8106479329266893 (-53)).
Proof. repeat split; apply Qeq_bool_iff; vm_compute; reflexivity. Qed.

(** On the sample values the four operators are those of [SpecFloat]. *)
Example operators_binary64 :
  agreeOnAll add (SFadd 53 1024) samples = true /\
  agreeOnAll sub (SFsub 53 1024) samples = true /\
  agreeOnAll mul (SFmul 53 1024) samples = true /\
  agreeOnAll div (SFdiv 53 1024) samples = true.
Proof. repeat split; vm_compute; reflexivity. Qed.

End NumCheckFacts.

(** ** The module on the sample inputs *)

Module SampleFacts.
Import Num Skills Match Samples.

Open Scope string_scope.

(** Each of "react", "mongodb" and "aws" occurs once, within 50 characters
    of "years" and of "expert": 0.3 + 0.2 + 0.1.  "reactjs" comes from the
    first pattern, "go" from the middle of "MongoDB". *)
Example extract_resumeLine :
  map (fun s => (name s, confidence s)) (extractSkillsFromText resumeLine)
  = [("reactjs", lit (8 # 10)); ("react", lit (6 # 10));
     ("mongodb", lit (6 # 10)); ("go", lit (6 # 10)); ("aws", lit (6 # 10))].
Proof. vm_compute. reflexivity. Qed.

Example extract_empty : extractSkillsFromText "" = [].
Proof. vm_compute. reflexivity. Qed.

(** Four years ended plus two years running at [now]: six years, within the
    senior range. *)
Example experience_sixYears_senior :
  calculateExperienceMatch (2 * 31536000000) sixYears seniorJob = 1.
Proof. vm_compute. reflexivity. Qed.

Example matchScore_python :
  calculateMatchScore 0 pythonUser pythonJob = Some 1.
Proof. vm_compute. reflexivity. Qed.

End SampleFacts.

(** ** The matcher finds every match *)

Module RegexComplete.
Import Str Regex RegexSem StrFacts RegexFacts.

Open Scope string_scope.









End RegexComplete.

(** ** More on the extraction *)

Module ExtractionFacts.
Import Num NumRep NumFacts NumOrder.
Import Str Regex RegexSem StrFacts RegexFacts RegexComplete.
Import Skills SkillsSpec SortFacts DedupeFacts SkillsFacts ExtractionSpec.

Open Scope string_scope.

Lemma lowerChar_idempotent (c : ascii) : lowerChar (lowerChar c) = lowerChar c.
Proof. destruct c as [[] [] [] [] [] [] [] []]; reflexivity. Qed.










(** *** Where the records come from *)

Lemma addMatch_pushes (text : string) (pattern : regex) (l : list SkillRecord)
    (m : string) :
  In pattern patterns -> In m (matchAll pattern text) ->
  exists added,
    addMatch l m = (l ++ added)%list /\ Forall (patternRecord text) added /\
    hasName (canonicalName m) (addMatch l m) = true.
Proof.
  intros Hp Hm. unfold addMatch. fold (canonicalName m).
  destruct (hasName (canonicalName m) l) eqn:E; cbn [negb].
  - exists []. rewrite app_nil_r. repeat split; [constructor | exact E].
  - eexists. split; [reflexivity |]. split.
    + constructor; [| constructor]. exists pattern, m. repeat split; assumption.
    + unfold push. rewrite hasName_app. simpl. rewrite String.eqb_refl.
      apply orb_true_r.
Qed.

Lemma matches_pushed (text : string) (pattern : regex) (ms : list string) :
  In pattern patterns -> incl ms (matchAll pattern text) ->
  forall l,
    exists added,
      fold_left addMatch ms l = (l ++ added)%list /\
      Forall (patternRecord text) added /\
      forall m, In m ms -> hasName (canonicalName m) (fold_left addMatch ms l) = true.
Proof.
  intros Hp. induction ms as [| m ms IH]; intros Hincl l; cbn [fold_left].
  - exists []. rewrite app_nil_r. repeat split; [constructor | contradiction].
  - destruct (addMatch_pushes text pattern l m Hp (Hincl m (or_introl eq_refl)))
      as [a1 [E1 [F1 N1]]].
    destruct (IH (fun x Hx => Hincl x (or_intror Hx)) (addMatch l m))
      as [a2 [E2 [F2 N2]]].
    exists (a1 ++ a2)%list. rewrite E2, E1, <- app_assoc.
    split; [reflexivity |]. split; [apply Forall_app; split; assumption |].
    intros x [<- | Hx].
    + rewrite app_assoc, hasName_app, <- E1, N1. reflexivity.
    + rewrite app_assoc, <- E1, <- E2. apply N2. exact Hx.
Qed.

Lemma patterns_pushed (text : string) (ps : list regex) :
  incl ps patterns ->
  forall l,
    exists added,
      fold_left (fun acc pattern => fold_left addMatch (matchAll pattern text) acc)
                ps l = (l ++ added)%list /\
      Forall (patternRecord text) added /\
      forall pattern m, In pattern ps -> In m (matchAll pattern text) ->
        hasName (canonicalName m) (l ++ added) = true.
Proof.
  induction ps as [| p ps IH]; intros Hincl l; cbn [fold_left].
  - exists []. rewrite app_nil_r. repeat split; [constructor | contradiction].
  - destruct (matches_pushed text p (matchAll p text)
                (Hincl p (or_introl eq_refl)) (incl_refl _) l) as [a1 [E1 [F1 N1]]].
    destruct (IH (fun x Hx => Hincl x (or_intror Hx))
                 (fold_left addMatch (matchAll p text) l)) as [a2 [E2 [F2 N2]]].
    exists (a1 ++ a2)%list. rewrite E2, E1, <- app_assoc.
    split; [reflexivity |]. split; [apply Forall_app; split; assumption |].
    intros pattern m [<- | Hpat] Hm.
    + rewrite app_assoc, hasName_app, <- E1, (N1 m Hm). reflexivity.
    + rewrite app_assoc, <- E1. apply (N2 pattern m Hpat Hm).
Qed.

(** The pushes of the second loop: pattern records only, and one for the
    name of every match unless the name is there already. *)
Lemma patternPass_pushed (text : string) :
  exists added,
    extractedSkills text = (dictionaryPass text ++ added)%list /\
    Forall (patternRecord text) added /\
    forall pattern m, In pattern patterns -> In m (matchAll pattern text) ->
      hasName (canonicalName m) (extractedSkills text) = true.
Proof.
  unfold extractedSkills, patternPass.
  destruct (patterns_pushed text patterns (incl_refl _) (dictionaryPass text))
    as [added [E [F N]]].
  exists added. rewrite E. repeat split; assumption.
Qed.

(** A name pushed is a name of the result. *)
Lemma hasName_result (text n : string) :
  hasName n (extractedSkills text) = true ->
  In n (map name (extractSkillsFromText text)).
Proof.
  intros H. unfold hasName in H. apply existsb_exists in H.
  destruct H as [s [Hs En]].
  destruct (find (fun s => String.eqb (name s) n) (extractedSkills text))
    as [r |] eqn:E.
  - pose proof (find_some _ _ E) as [_ Hr]. apply String.eqb_eq in Hr.
    apply in_map_iff. exists r. split; [exact Hr |].
    apply In_extractSkillsFromText. rewrite uniqueSkills_firstOfEachName.
    apply (find_firstOfEachName _ [] n); [reflexivity | exact E].
  - apply (find_none _ _ E) in Hs. simpl in Hs. congruence.
Qed.

(** Every record of the result is a dictionary record of an entry the text
    contains, or a pattern record. *)
Lemma result_provenance (text : string) (r : SkillRecord) :
  In r (extractSkillsFromText text) ->
  (In (name r) TECH_SKILLS /\ includes (toLowerCase text) (name r) = true /\
   r = dictionaryRecord text (name r)) \/
  patternRecord text r.
Proof.
  intros H. apply In_extractSkillsFromText, uniqueSkills_incl in H.
  destruct (patternPass_pushed text) as [added [E [F _]]].
  rewrite E in H. apply in_app_or in H. destruct H as [H | H].
  - left. rewrite dictionaryPass_table in H. apply in_map_iff in H.
    destruct H as [skill [<- Hs]]. apply filter_In in Hs. simpl. tauto.
  - right. rewrite Forall_forall in F. apply F. exact H.
Qed.

End ExtractionFacts.

Module VocabularyFacts.
Import Num Str Regex RegexSem StrFacts RegexFacts RegexComplete.
Import Skills SkillsSpec DedupeFacts SkillsFacts ExtractionSpec ExtractionFacts.

Open Scope string_scope.

(** A match of a pattern without [.] is, in lower case, one of its words. *)
Lemma matches_wordsOf (r : regex) (prev : option ascii) (w rest : string) :
  Matches r prev w rest -> noAnyChar r = true -> In (toLowerCase w) (wordsOf r).
Proof.
  induction 1 as [prev rest | c a prev rest Hc | a prev rest Ha
                 | r1 r2 prev w1 w2 rest M1 IH1 M2 IH2
                 | r1 r2 prev w rest M IH | r1 r2 prev w rest M IH
                 | r prev w rest M IH | r prev rest | prev rest Hb];
    intros Hn; cbn [noAnyChar wordsOf] in *.
  - left. reflexivity.
  - left. simpl. rewrite (ciEq_lower c a Hc). reflexivity.
  - discriminate.
  - apply andb_true_iff in Hn. destruct Hn as [H1 H2].
    rewrite toLowerCase_append. apply in_flat_map.
    exists (toLowerCase w1). split; [apply IH1; exact H1 |].
    apply in_map. apply IH2. exact H2.
  - apply andb_true_iff in Hn. apply in_or_app. left. apply IH. tauto.
  - apply andb_true_iff in Hn. apply in_or_app. right. apply IH. tauto.
  - apply in_or_app. left. apply IH. exact Hn.
  - apply in_or_app. right. left. reflexivity.
  - left. reflexivity.
Qed.

(** The words of the five patterns, stripped, are the pattern names. *)
Lemma patterns_words :
  forallb
    (fun p => noAnyChar p &&
              forallb (fun w => existsb (String.eqb (stripNonWord w)) patternNames)
                      (wordsOf p))
    patterns = true.
Proof. vm_compute. reflexivity. Qed.

Lemma patternRecord_name (text : string) (r : SkillRecord) :
  patternRecord text r -> In (name r) patternNames.
Proof.
  intros [pattern [m [Hp [Hm ->]]]]. simpl.
  pose proof patterns_words as H. rewrite forallb_forall in H.
  specialize (H pattern Hp). apply andb_true_iff in H. destruct H as [Hn Hw].
  apply matchAll_sound in Hm. destruct Hm as [before [after [_ M]]].
  apply matches_wordsOf in M; [| exact Hn].
  rewrite forallb_forall in Hw. specialize (Hw _ M).
  apply existsb_exists in Hw. destruct Hw as [n [Hin E]].
  apply String.eqb_eq in E. unfold canonicalName. rewrite E. exact Hin.
Qed.

Lemma vocabulary_shape (n : string) :
  In n vocabulary -> toLowerCase n = n /\ n <> "".
Proof.
  assert (H : forallb (fun s => String.eqb (toLowerCase s) s
                                && negb (String.eqb s ""))
                      vocabulary = true) by (vm_compute; reflexivity).
  rewrite forallb_forall in H. intros Hin. specialize (H n Hin).
  apply andb_true_iff in H. destruct H as [H1 H2].
  apply String.eqb_eq in H1. apply negb_true_iff, String.eqb_neq in H2. tauto.
Qed.

(** *** No push repeats a name *)

Lemma TECH_SKILLS_NoDup : NoDup TECH_SKILLS.
Proof.
  assert (E : nodup string_dec TECH_SKILLS = TECH_SKILLS) by (vm_compute; reflexivity).
  rewrite <- E. apply NoDup_nodup.
Qed.

Lemma dictionaryPass_names (text : string) :
  map name (dictionaryPass text)
  = filter (includes (toLowerCase text)) TECH_SKILLS.
Proof.
  rewrite dictionaryPass_table, map_map. apply map_id.
Qed.

Lemma hasName_false (n : string) (l : list SkillRecord) :
  hasName n l = false <-> ~ In n (map name l).
Proof.
  rewrite <- hasName_In. destruct (hasName n l); split; congruence.
Qed.

Lemma addMatch_NoDup (l : list SkillRecord) (m : string) :
  NoDup (map name l) -> NoDup (map name (addMatch l m)).
Proof.
  intros H. unfold addMatch.
  destruct (hasName (stripNonWord (toLowerCase m)) l) eqn:E; cbn [negb]; [exact H |].
  unfold push. rewrite map_app. cbn [map name].
  apply (Permutation_NoDup (l := stripNonWord (toLowerCase m) :: map name l)).
  - apply Permutation_cons_append.
  - constructor; [apply hasName_false; exact E | exact H].
Qed.

Lemma extractedSkills_NoDup (text : string) :
  NoDup (map name (extractedSkills text)).
Proof.
  unfold extractedSkills, patternPass.
  assert (Hfold : forall ms l, NoDup (map name l) ->
                               NoDup (map name (fold_left addMatch ms l))).
  { induction ms as [| m ms IH]; intros l H; cbn [fold_left]; [exact H |].
    apply IH, addMatch_NoDup, H. }
  assert (Hpats : forall ps l, NoDup (map name l) ->
            NoDup (map name
              (fold_left (fun acc p => fold_left addMatch (matchAll p text) acc) ps l))).
  { induction ps as [| p ps IH]; intros l H; cbn [fold_left]; [exact H |].
    apply IH, Hfold, H. }
  apply Hpats. rewrite dictionaryPass_names.
  apply NoDup_filter, TECH_SKILLS_NoDup.
Qed.

Lemma firstOfEachName_all (l : list SkillRecord) :
  forall earlier,
    NoDup (map name (earlier ++ l)) -> firstOfEachName earlier l = l.
Proof.
  induction l as [| x l IH]; intros earlier H; [reflexivity |].
  cbn [firstOfEachName].
  assert (Hx : hasName (name x) earlier = false).
  { apply hasName_false. intros Hin.
    rewrite map_app in H. cbn [map] in H.
    apply NoDup_remove_2 in H. apply H. apply in_or_app. left. exact Hin. }
  rewrite Hx. f_equal. apply IH. unfold push.
  rewrite <- app_assoc. exact H.
Qed.

End VocabularyFacts.

Module EscapeFacts.
Import Str Regex Escape.

Open Scope string_scope.

(** The class of [escapeRegExp] is the set of syntax characters. *)
Lemma isSyntaxCharacter_isSpecial (c : ascii) : isSyntaxCharacter c = isSpecial c.
Proof. destruct c as [[] [] [] [] [] [] [] []]; reflexivity. Qed.

Lemma backslash_special (c : ascii) : Ascii.eqb c "\" = true -> isSpecial c = true.
Proof. intros H. apply Ascii.eqb_eq in H. subst c. reflexivity. Qed.

Lemma literal_injective (s : string) : forall s', literal s = literal s' -> s = s'.
Proof.
  induction s as [| c s IH]; intros [| c' s'] H; simpl in H;
    try discriminate; [reflexivity |].
  injection H as -> H. f_equal. apply IH. exact H.
Qed.

Lemma parsePattern_escapeRegExp (s : string) :
  parsePattern (escapeRegExp s) = Some (literal s).
Proof.
  induction s as [| c s IH]; [reflexivity |].
  cbn [escapeRegExp literal]. destruct (isSpecial c) eqn:E.
  - cbn [parsePattern]. rewrite Ascii.eqb_refl, isSyntaxCharacter_isSpecial, E, IH.
    reflexivity.
  - cbn [parsePattern]. destruct (Ascii.eqb c "\") eqn:Eb.
    + apply backslash_special in Eb. congruence.
    + rewrite isSyntaxCharacter_isSpecial, E, IH. reflexivity.
Qed.

End EscapeFacts.

(** ** Further properties of the extraction *)

Module ExtractionExtras.
Import Num NumRep NumFacts NumOrder.
Import Str Regex RegexSem StrFacts RegexFacts RegexComplete Escape EscapeFacts.
Import Skills SkillsSpec SortFacts DedupeFacts SkillsFacts.
Import ExtractionSpec ExtractionFacts VocabularyFacts.

Open Scope string_scope.

(** X1.  The source [escapeRegExp] builds from any string reads back, as a
    pattern, as the characters of that string, each standing for itself:
    no character of the string is left with a special meaning.  Hence the
    global match on it is the occurrence count of [calculateConfidence], and
    two strings with the same escaped source are the same string. *)
Theorem escapeRegExp_reads_back_literal (s : string) :
  parsePattern (escapeRegExp s) = Some (literal s) /\
  (forall text,
     option_map (fun r => matchAll r text) (parsePattern (escapeRegExp s))
     = Some (occurrencesOf text s)) /\
  (forall s', escapeRegExp s = escapeRegExp s' -> s = s').
Proof.
  split; [apply parsePattern_escapeRegExp |]. split.
  - intros text. rewrite parsePattern_escapeRegExp. reflexivity.
  - intros s' H. apply literal_injective.
    pose proof (parsePattern_escapeRegExp s) as H1.
    pose proof (parsePattern_escapeRegExp s') as H2.
    rewrite H in H1. congruence.
Qed.





(** X5.  Every record of the result is either the dictionary record of a
    dictionary entry the lowercased text contains, or a record of confidence
    0.8 whose name is the lowercased match of one of the five patterns
    stripped of its non-word characters; in both cases its level is
    "Intermediate" and it is marked as extracted. *)
Theorem result_provenance_of_records (text : string) :
  Forall
    (fun r =>
       ((In (name r) TECH_SKILLS /\
         includes (toLowerCase text) (name r) = true /\
         confidence r = calculateConfidence text (name r)) \/
        (confidence r = lit (8 # 10) /\
         exists pattern m,
           In pattern patterns /\ In m (matchAll pattern text) /\
           name r = stripNonWord (toLowerCase m))) /\
       level r = "Intermediate" /\ aiExtracted r = true)
    (extractSkillsFromText text).
Proof.
  apply Forall_forall. intros r Hr. apply result_provenance in Hr.
  destruct Hr as [[Hin [Hinc E]] | [pattern [m [Hp [Hm ->]]]]].
  - remember (name r) as n eqn:En. clear En. subst r. simpl.
    split; [left | split; reflexivity]. repeat split; assumption.
  - simpl. split; [right | split; reflexivity].
    split; [reflexivity |]. exists pattern, m. repeat split; assumption.
Qed.

(** X6.  Nothing found is lost: every dictionary entry the lowercased text
    contains, and the stripped lowercased form of every match of every
    pattern, is the name of a record of the result. *)
Theorem result_names_complete (text : string) :
  Forall (fun entry =>
            includes (toLowerCase text) entry = true ->
            In entry (map name (extractSkillsFromText text)))
         TECH_SKILLS /\
  Forall (fun pattern =>
            Forall (fun m =>
                      In (stripNonWord (toLowerCase m))
                         (map name (extractSkillsFromText text)))
                   (matchAll pattern text))
         patterns.
Proof.
  destruct (patternPass_pushed text) as [added [E [_ N]]]. split.
  - apply Forall_forall. intros entry Hin Hinc. apply hasName_result.
    rewrite E, hasName_app. apply orb_true_iff. left.
    apply hasName_In. rewrite dictionaryPass_names. apply filter_In. tauto.
  - apply Forall_forall. intros pattern Hp.
    apply Forall_forall. intros m Hm. apply hasName_result.
    apply (N pattern m Hp Hm).
Qed.

(** X7.  The names of the result come from a fixed vocabulary, the 41
    dictionary entries and the 33 names the patterns can give; each is
    lowercase and not empty.  In particular the first pattern never gives a
    framework name without its "js", and the second never a name without
    "j" or "js". *)
Theorem result_names_in_vocabulary (text : string) :
  Forall (fun r => In (name r) vocabulary /\
                   toLowerCase (name r) = name r /\ name r <> "")
         (extractSkillsFromText text).
Proof.
  apply Forall_forall. intros r Hr.
  assert (Hv : In (name r) vocabulary).
  { apply result_provenance in Hr. unfold vocabulary. apply in_or_app.
    destruct Hr as [[Hin _] | Hp]; [left; exact Hin |].
    right. eapply patternRecord_name. exact Hp. }
  split; [exact Hv | apply vocabulary_shape; exact Hv].
Qed.

(** X8.  No push of the two loops repeats a name, so the duplicate filter
    removes nothing: the result is the sorted list of the pushes, and it has
    as many records as there were pushes. *)
Theorem duplicate_filter_removes_nothing (text : string) :
  NoDup (map name (extractedSkills text)) /\
  uniqueSkills (extractedSkills text) = extractedSkills text /\
  extractSkillsFromText text = sort byConfidence (extractedSkills text) /\
  List.length (extractSkillsFromText text) = List.length (extractedSkills text).
Proof.
  pose proof (extractedSkills_NoDup text) as H.
  assert (E : uniqueSkills (extractedSkills text) = extractedSkills text).
  { rewrite uniqueSkills_firstOfEachName. apply firstOfEachName_all. exact H. }
  unfold extractSkillsFromText. rewrite E. repeat split; [exact H |].
  apply Permutation_length, sort_perm.
Qed.

End ExtractionExtras.

(** ** More on the scores *)

Module ScoringFacts.
Import Num NumRep NumFacts NumOrder Str StrFacts.
Import Match MatchSpec MatchFacts ScoreFacts.
Import ExtractionFacts.

Open Scope string_scope.

(** Rounding gives one result for equal rationals, whatever their
    fractions. *)
Lemma round64_canonical (x y : Q) : x == y -> round64 x = round64 y.
Proof.
  intros E. pose proof (round64_ext x y E) as H. unfold round64 in *.
  assert (C : Qcompare x 0 = Qcompare y 0) by (rewrite E; reflexivity).
  rewrite C in *. destruct (Qcompare y 0); [reflexivity | |];
    rewrite !Qred_correct in H; apply Qred_complete; exact H.
Qed.

(** *** Skills *)

Lemma matchedWeightOf_all (userSkills : list Skills.SkillRecord)
    (requiredSkills : list RequiredSkill) :
  matchedWeightOf userSkills requiredSkills = totalWeightOf requiredSkills <->
  forall r, In r requiredSkills -> userHas userSkills r = true.
Proof.
  unfold matchedWeightOf. induction requiredSkills as [| r rs IH]; simpl.
  - split; [intros _ r [] | reflexivity].
  - pose proof (weightOf_pos r) as Hw.
    pose proof (matchedWeightOf_bounds userSkills rs) as Hb.
    unfold matchedWeightOf in Hb.
    destruct (userHas userSkills r) eqn:E; simpl.
    + split.
      * intros H x [<- | Hx]; [exact E |]. apply IH; [lia | exact Hx].
      * intros H. f_equal. apply IH. intros x Hx. apply H. right. exact Hx.
    + split; [lia |]. intros H. specialize (H r (or_introl eq_refl)). congruence.
Qed.

Lemma matchedWeightOf_none (userSkills : list Skills.SkillRecord)
    (requiredSkills : list RequiredSkill) :
  matchedWeightOf userSkills requiredSkills = 0%Z <->
  forall r, In r requiredSkills -> userHas userSkills r = false.
Proof.
  unfold matchedWeightOf. induction requiredSkills as [| r rs IH]; simpl.
  - split; [intros _ r [] | reflexivity].
  - pose proof (weightOf_pos r) as Hw.
    pose proof (matchedWeightOf_bounds userSkills rs) as Hb.
    unfold matchedWeightOf in Hb.
    destruct (userHas userSkills r) eqn:E; simpl.
    + split; [lia |]. intros H. specialize (H r (or_introl eq_refl)). congruence.
    + split.
      * intros H x [<- | Hx]; [exact E |]. apply IH; assumption.
      * intros H. apply IH. intros x Hx. apply H. right. exact Hx.
Qed.

Lemma matchedWeightOf_mono (us us' : list Skills.SkillRecord)
    (requiredSkills : list RequiredSkill) :
  (forall r, userHas us r = true -> userHas us' r = true) ->
  (matchedWeightOf us requiredSkills <= matchedWeightOf us' requiredSkills)%Z.
Proof.
  intros H. unfold matchedWeightOf.
  induction requiredSkills as [| r rs IH]; simpl; [lia |].
  pose proof (weightOf_pos r) as Hw. specialize (H r).
  destruct (userHas us r); [rewrite H by reflexivity; simpl; lia |].
  destruct (userHas us' r); simpl; lia.
Qed.

(** Below a full match the quotient stays under the last binary64 value
    before 1, for weights up to 2^53. *)
Lemma partial_match_below_1 (m t : Z) :
  (0 <= m < t)%Z -> (t <= 2 ^ 53)%Z -> div (ofZ m) (ofZ t) < 1.
Proof.
  intros Hm Ht. unfold div, ofZ.
  apply Qle_lt_trans with (round64 (9007199254740991 # 9007199254740992));
    [| apply Qlt_alt; vm_compute; reflexivity].
  apply round64_mono. apply Qle_shift_div_r.
  - change 0 with (inject_Z 0). rewrite <- Zlt_Qlt. lia.
  - unfold Qle, Qmult, inject_Z. cbn [Qnum Qden].
    change (2 ^ 53)%Z with 9007199254740992%Z in Ht.
    rewrite ?Pos.mul_1_l, ?Pos.mul_1_r. lia.
Qed.

Lemma some_match_above_0 (m t : Z) :
  (0 < m)%Z -> (0 < t <= 2 ^ 53)%Z -> 0 < div (ofZ m) (ofZ t).
Proof.
  intros Hm Ht. unfold div, ofZ.
  apply Qlt_le_trans with (round64 (1 # 9007199254740992));
    [apply Qlt_alt; vm_compute; reflexivity |].
  apply round64_mono. apply Qle_shift_div_l.
  - change 0 with (inject_Z 0). rewrite <- Zlt_Qlt. lia.
  - unfold Qle, Qmult, inject_Z. cbn [Qnum Qden].
    change (2 ^ 53)%Z with 9007199254740992%Z in Ht.
    rewrite ?Pos.mul_1_l, ?Pos.mul_1_r. lia.
Qed.

Lemma div_same (t : Z) : (0 < t)%Z -> div (ofZ t) (ofZ t) = 1.
Proof.
  intros Ht. unfold div, ofZ. rewrite <- round64_1. apply round64_canonical.
  apply Qmult_inv_r. intros H.
  unfold Qeq, inject_Z in H. cbn [Qnum Qden] in H. lia.
Qed.

Lemma div_zero (t : Z) : div (ofZ 0) (ofZ t) = 0.
Proof.
  unfold div, ofZ. transitivity (round64 0); [| reflexivity].
  apply round64_canonical. unfold Qdiv. change (inject_Z 0) with 0. ring.
Qed.

(** The score depends on the lists only through the lowercased names and
    the mandatory flags. *)
Lemma userHas_names (us us' : list Skills.SkillRecord) (r r' : RequiredSkill) :
  map (fun s => toLowerCase (Skills.name s)) us
  = map (fun s => toLowerCase (Skills.name s)) us' ->
  toLowerCase (reqName r) = toLowerCase (reqName r') ->
  userHas us r = userHas us' r'.
Proof.
  intros Hu Hr. rewrite <- !includesString_userHas, Hu, Hr. reflexivity.
Qed.

Lemma weights_names (us us' : list Skills.SkillRecord) :
  map (fun s => toLowerCase (Skills.name s)) us
  = map (fun s => toLowerCase (Skills.name s)) us' ->
  forall rs rs',
    map (fun r => (toLowerCase (reqName r), mandatory r)) rs
    = map (fun r => (toLowerCase (reqName r), mandatory r)) rs' ->
    matchedWeightOf us rs = matchedWeightOf us' rs' /\
    totalWeightOf rs = totalWeightOf rs'.
Proof.
  intros Hu. unfold matchedWeightOf.
  induction rs as [| r rs IH]; intros [| r' rs'] H; try discriminate;
    [split; reflexivity |].
  cbn [map] in H. injection H as Hn Hm H. destruct (IH rs' H) as [IH1 IH2].
  assert (Hw : weightOf r = weightOf r') by (unfold weightOf; rewrite Hm; reflexivity).
  cbn [filter totalWeightOf]. rewrite (userHas_names us us' r r' Hu Hn), Hw.
  destruct (userHas us' r'); cbn [totalWeightOf]; split; congruence.
Qed.

(** *** Experience *)





(** *** Location *)

Lemma preferredLocations_eq (user : User) :
  orElse (locations (orElse (preferences user) (mkPreferences None None))) []
  = preferredLocations user.
Proof. unfold preferredLocations. destruct (preferences user); reflexivity. Qed.

Lemma preferredTypes_eq (user : User) :
  orElse (jobTypes (orElse (preferences user) (mkPreferences None None))) []
  = preferredTypes user.
Proof. unfold preferredTypes. destruct (preferences user); reflexivity. Qed.

Lemma includes_empty (s : string) : includes s "" = true.
Proof. destruct s; reflexivity. Qed.

Lemma calculateLocationMatch_on_site (user : User) (job : Job) (l : string) :
  remote job = false -> preferredLocations user <> [] -> location job = Some l ->
  calculateLocationMatch user job
  = Some (if existsb (fun loc => includes (toLowerCase l) (toLowerCase loc)
                                 || includes (toLowerCase loc) (toLowerCase l))
                     (preferredLocations user)
          then 1 else lit (3 # 10)).
Proof.
  intros Hr Hp Hl. unfold calculateLocationMatch.
  rewrite preferredLocations_eq, Hr, Hl.
  apply isEmpty_false in Hp. rewrite Hp. reflexivity.
Qed.

Lemma calculateLocationMatch_ge (user : User) (job : Job) (score : number) :
  calculateLocationMatch user job = Some score -> lit (3 # 10) <= score.
Proof.
  unfold calculateLocationMatch.
  destruct (remote job); [intros H; injection H as <-; closed_le |].
  destruct (isEmpty _); [intros H; injection H as <-; closed_le |].
  destruct (location job); [| discriminate].
  destruct (existsb _ _); intros H; injection H as <-; closed_le.
Qed.

Lemma calculateJobTypeMatch_ge (user : User) (job : Job) :
  lit (5 # 10) <= calculateJobTypeMatch user job.
Proof.
  unfold calculateJobTypeMatch.
  destruct (isEmpty _); [closed_le |].
  destruct (includesString _ _); closed_le.
Qed.

(** *** The combiner *)

Lemma weightedSum_mono (s s' e e' l l' t t' : number) :
  s <= s' -> e <= e' -> l <= l' -> t <= t' ->
  weightedSum s e l t <= weightedSum s' e' l' t'.
Proof.
  intros Hs He Hl Ht. unfold weightedSum.
  repeat (apply add_mono; [| apply mul_mono_l; [closed_le | assumption]]).
  apply Qle_refl.
Qed.

Lemma score_mono (s s' e e' l l' t t' : number) :
  s <= s' -> e <= e' -> l <= l' -> t <= t' ->
  normalise (accumulated s e l t) <= normalise (accumulated s' e' l' t').
Proof.
  intros Hs He Hl Ht. rewrite !normalise_accumulated.
  apply div_mono_l; [exact weightSum_pos |].
  apply weightedSum_mono; assumption.
Qed.

Lemma calculateMatchScore_eq (now : Z) (user : User) (job : Job) :
  calculateMatchScore now user job
  = option_map
      (fun locationScore =>
         normalise
           (accumulated
              (calculateSkillsMatch (orElse (skills user) [])
                                    (orElse (requiredSkills job) []))
              (calculateExperienceMatch now user job)
              locationScore
              (calculateJobTypeMatch user job)))
      (calculateLocationMatch user job).
Proof.
  unfold calculateMatchScore.
  destruct (calculateLocationMatch user job); reflexivity.
Qed.

End ScoringFacts.

(** ** Further properties of the scores *)

Module ScoringExtras.
Import Num NumRep NumFacts NumOrder Str StrFacts.
Import Match MatchSpec MatchFacts ScoreFacts ScoringFacts.
Import Samples Samples2.

Open Scope string_scope.

(** X9.  For a user with skills and a job with required skills (of total
    weight at most 2^53), [calculateSkillsMatch] is exactly 1 if and only if
    the user has every required skill, and exactly 0 if and only if the
    user has none of them. *)
Theorem skills_score_extremes (userSkills : list Skills.SkillRecord)
    (requiredSkills : list RequiredSkill) :
  userSkills <> [] -> requiredSkills <> [] ->
  (totalWeightOf requiredSkills <= 2 ^ 53)%Z ->
  (calculateSkillsMatch userSkills requiredSkills = 1 <->
   forall r, In r requiredSkills -> userHas userSkills r = true) /\
  (calculateSkillsMatch userSkills requiredSkills = 0 <->
   forall r, In r requiredSkills -> userHas userSkills r = false).
Proof.
  intros Hu Hr Hmax. rewrite calculateSkillsMatch_eq.
  apply isEmpty_false in Hu. rewrite Hu. cbn [orb].
  pose proof (totalWeightOf_pos requiredSkills Hr) as Ht.
  apply isEmpty_false in Hr. rewrite Hr.
  pose proof (matchedWeightOf_bounds userSkills requiredSkills) as Hb.
  rewrite <- matchedWeightOf_all, <- matchedWeightOf_none.
  set (m := matchedWeightOf userSkills requiredSkills) in *.
  set (t := totalWeightOf requiredSkills) in *.
  split; split.
  - intros H. destruct (Z.eq_dec m t) as [E | NE]; [exact E | exfalso].
    pose proof (partial_match_below_1 m t) as Hlt. rewrite H in Hlt.
    apply (Qlt_irrefl 1). apply Hlt; lia.
  - intros ->. apply div_same. exact Ht.
  - intros H. destruct (Z.eq_dec m 0) as [E | NE]; [exact E | exfalso].
    pose proof (some_match_above_0 m t) as Hlt. rewrite H in Hlt.
    apply (Qlt_irrefl 0). apply Hlt; lia.
  - intros ->. apply div_zero.
Qed.

Lemma skills_score_extremes_witness :
  orElse (skills pythonUser) [] <> [] /\
  orElse (requiredSkills pythonJob) [] <> [] /\
  (totalWeightOf (orElse (requiredSkills pythonJob) []) <= 2 ^ 53)%Z /\
  (calculateSkillsMatch (orElse (skills pythonUser) [])
                        (orElse (requiredSkills pythonJob) []) = 1 <->
   forall r, In r (orElse (requiredSkills pythonJob) []) ->
             userHas (orElse (skills pythonUser) []) r = true).
Proof.
  assert (H1 : orElse (skills pythonUser) [] <> []) by discriminate.
  assert (H2 : orElse (requiredSkills pythonJob) [] <> []) by discriminate.
  assert (H3 : (totalWeightOf (orElse (requiredSkills pythonJob) []) <= 2 ^ 53)%Z)
    by (vm_compute; discriminate).
  split; [exact H1 | split; [exact H2 | split; [exact H3 |]]].
  apply (skills_score_extremes _ _ H1 H2 H3).
Defined.

(** X10.  One more user skill never lowers the skills score. *)
Theorem skills_score_grows_with_skills (s : Skills.SkillRecord)
    (userSkills : list Skills.SkillRecord) (requiredSkills : list RequiredSkill) :
  calculateSkillsMatch userSkills requiredSkills
  <= calculateSkillsMatch (s :: userSkills) requiredSkills.
Proof.
  destruct userSkills as [| u us].
  - destruct (calculateSkillsMatch_unit [s] requiredSkills) as [H _].
    rewrite calculateSkillsMatch_eq. exact H.
  - rewrite !calculateSkillsMatch_eq. cbn [isEmpty orb].
    destruct (isEmpty requiredSkills) eqn:E; [apply Qle_refl |].
    apply isEmpty_false, totalWeightOf_pos in E.
    apply div_mono_l.
    + unfold ofZ. change 0 with (inject_Z 0). rewrite <- Zlt_Qlt. exact E.
    + unfold ofZ. rewrite <- Zle_Qle. apply matchedWeightOf_mono.
      intros r H. unfold userHas in *. cbn [existsb] in *. rewrite H.
      apply orb_true_r.
Qed.

(** X11.  The skills score depends on the two lists only through the
    lowercased names and the mandatory flags: letter case of the names, and
    every other field of a skill, do not matter. *)
Theorem skills_score_ignores_case
    (userSkills userSkills' : list Skills.SkillRecord)
    (requiredSkills requiredSkills' : list RequiredSkill) :
  map (fun s => toLowerCase (Skills.name s)) userSkills
  = map (fun s => toLowerCase (Skills.name s)) userSkills' ->
  map (fun r => (toLowerCase (reqName r), mandatory r)) requiredSkills
  = map (fun r => (toLowerCase (reqName r), mandatory r)) requiredSkills' ->
  calculateSkillsMatch userSkills requiredSkills
  = calculateSkillsMatch userSkills' requiredSkills'.
Proof.
  intros Hu Hr. rewrite !calculateSkillsMatch_eq.
  destruct (weights_names _ _ Hu _ _ Hr) as [-> ->].
  assert (Eu : isEmpty userSkills = isEmpty userSkills').
  { destruct userSkills, userSkills'; try discriminate; reflexivity. }
  assert (Er : isEmpty requiredSkills = isEmpty requiredSkills').
  { destruct requiredSkills, requiredSkills'; try discriminate; reflexivity. }
  rewrite Eu, Er. reflexivity.
Qed.

Lemma skills_score_ignores_case_witness :
  calculateSkillsMatch shoutingSkills shoutingRequired
  = calculateSkillsMatch (orElse (skills pythonUser) [])
                         (orElse (requiredSkills pythonJob) []).
Proof.
  apply (skills_score_ignores_case shoutingSkills (orElse (skills pythonUser) [])
           shoutingRequired (orElse (requiredSkills pythonJob) []));
    reflexivity.
Defined.







(** X16.  Containment holds for the empty string: a user who lists the empty
    string among the preferred locations scores 1 against every on-site job
    that has a location, and so does every user with a preferred location
    against an on-site job whose location is the empty string. *)
Theorem empty_location_matches_everything (user : User) (job : Job) (l : string) :
  remote job = false -> location job = Some l ->
  In "" (preferredLocations user) \/ (l = "" /\ preferredLocations user <> []) ->
  calculateLocationMatch user job = Some 1.
Proof.
  intros Hr Hl H.
  assert (Hne : preferredLocations user <> []).
  { destruct H as [H | [_ H]]; [| exact H]. intros E. rewrite E in H. contradiction. }
  rewrite (calculateLocationMatch_on_site user job l Hr Hne Hl).
  replace (existsb _ _) with true; [reflexivity |].
  symmetry. apply existsb_exists. destruct H as [H | [-> _]].
  - exists "". split; [exact H |]. simpl. rewrite includes_empty. reflexivity.
  - destruct (preferredLocations user) as [| loc locs]; [congruence |].
    exists loc. split; [left; reflexivity |]. simpl.
    rewrite includes_empty. apply orb_true_r.
Qed.

Lemma empty_location_matches_everything_witness :
  remote berlinJob = false /\ location berlinJob = Some "Berlin" /\
  In "" (preferredLocations anywhereUser) /\
  calculateLocationMatch anywhereUser berlinJob = Some 1.
Proof.
  assert (H : In "" (preferredLocations anywhereUser)) by (left; reflexivity).
  split; [reflexivity | split; [reflexivity | split; [exact H |]]].
  apply (empty_location_matches_everything anywhereUser berlinJob "Berlin"
           eq_refl eq_refl (or_introl H)).
Defined.

(** X17.  The location score depends on the preferred locations and on the
    job's location only through their lowercased forms. *)
Theorem location_score_ignores_case (user user' : User) (job job' : Job) :
  remote job = remote job' ->
  map toLowerCase (preferredLocations user)
  = map toLowerCase (preferredLocations user') ->
  option_map toLowerCase (location job) = option_map toLowerCase (location job') ->
  calculateLocationMatch user job = calculateLocationMatch user' job'.
Proof.
  intros Hr Hp Hl. unfold calculateLocationMatch.
  rewrite !preferredLocations_eq, Hr.
  destruct (remote job'); [reflexivity |].
  assert (Ee : isEmpty (preferredLocations user) = isEmpty (preferredLocations user')).
  { destruct (preferredLocations user), (preferredLocations user');
      try discriminate; reflexivity. }
  rewrite Ee. destruct (isEmpty (preferredLocations user')); [reflexivity |].
  destruct (location job) as [l |], (location job') as [l' |];
    try discriminate; [| reflexivity].
  simpl in Hl. injection Hl as Hl. rewrite Hl. do 2 f_equal.
  assert (Hex : forall locs,
            existsb (fun loc => includes (toLowerCase l') (toLowerCase loc)
                                || includes (toLowerCase loc) (toLowerCase l')) locs
            = existsb (fun low => includes (toLowerCase l') low
                                  || includes low (toLowerCase l'))
                      (map toLowerCase locs)).
  { induction locs as [| loc locs IH]; simpl; [reflexivity |].
    rewrite IH. reflexivity. }
  rewrite !Hex, Hp. reflexivity.
Qed.

Lemma location_score_ignores_case_witness :
  calculateLocationMatch shoutingBerlinUser berlinJob
  = calculateLocationMatch berlinUser berlinJob.
Proof.
  apply (location_score_ignores_case shoutingBerlinUser berlinUser
           berlinJob berlinJob); reflexivity.
Defined.

(** X18.  When the four sub-scores are all 1, [calculateMatchScore] returns
    exactly 1: the division by the accumulated weight sum makes up for the
    weights not adding up to 1 in binary64. *)
Theorem perfect_match_scores_one (now : Z) (user : User) (job : Job)
    (locationScore : number) :
  calculateSkillsMatch (orElse (skills user) []) (orElse (requiredSkills job) [])
  == 1 ->
  calculateExperienceMatch now user job == 1 ->
  calculateLocationMatch user job = Some locationScore -> locationScore == 1 ->
  calculateJobTypeMatch user job == 1 ->
  calculateMatchScore now user job = Some 1.
Proof.
  intros Hs He Hl Hl1 Ht. rewrite calculateMatchScore_eq, Hl. cbn [option_map].
  f_equal. rewrite normalise_accumulated. unfold weightedSum.
  assert (E : forall s w, s == 1 -> mul s w = mul 1 w).
  { intros s w H. apply round64_canonical. rewrite H. reflexivity. }
  rewrite (E _ _ Hs), (E _ _ He), (E _ _ Hl1), (E _ _ Ht).
  vm_compute. reflexivity.
Qed.

Lemma perfect_match_scores_one_witness :
  calculateMatchScore 0 pythonUser pythonJob = Some 1.
Proof.
  assert (Hs : calculateSkillsMatch (orElse (skills pythonUser) [])
                                    (orElse (requiredSkills pythonJob) []) == 1)
    by (apply Qeq_bool_iff; vm_compute; reflexivity).
  assert (He : calculateExperienceMatch 0 pythonUser pythonJob == 1)
    by (apply Qeq_bool_iff; vm_compute; reflexivity).
  assert (Ht : calculateJobTypeMatch pythonUser pythonJob == 1)
    by (apply Qeq_bool_iff; vm_compute; reflexivity).
  exact (perfect_match_scores_one 0 pythonUser pythonJob 1 Hs He eq_refl
           (Qeq_refl 1) Ht).
Defined.

(** X19.  Raising a sub-score never lowers the match score: if each of the
    four sub-scores of one user and job is at most that of another, so is
    the match score. *)
Theorem better_subscores_never_lower (now now' : Z) (user user' : User)
    (job job' : Job) (l l' : number) :
  calculateLocationMatch user job = Some l ->
  calculateLocationMatch user' job' = Some l' ->
  calculateSkillsMatch (orElse (skills user) []) (orElse (requiredSkills job) [])
  <= calculateSkillsMatch (orElse (skills user') [])
                          (orElse (requiredSkills job') []) ->
  calculateExperienceMatch now user job <= calculateExperienceMatch now' user' job' ->
  l <= l' ->
  calculateJobTypeMatch user job <= calculateJobTypeMatch user' job' ->
  exists score score',
    calculateMatchScore now user job = Some score /\
    calculateMatchScore now' user' job' = Some score' /\
    score <= score'.
Proof.
  intros Hl Hl' Hs He Hll Ht. rewrite !calculateMatchScore_eq, Hl, Hl'.
  cbn [option_map]. do 2 eexists. split; [reflexivity |].
  split; [reflexivity |]. apply score_mono; assumption.
Qed.

Lemma better_subscores_never_lower_witness :
  exists score score',
    calculateMatchScore 0 blankUser onSiteJob = Some score /\
    calculateMatchScore 0 pythonUser pythonJob = Some score' /\
    score <= score'.
Proof.
  assert (Hs : calculateSkillsMatch (orElse (skills blankUser) [])
                                    (orElse (requiredSkills onSiteJob) [])
               <= calculateSkillsMatch (orElse (skills pythonUser) [])
                                       (orElse (requiredSkills pythonJob) []))
    by (apply Qle_bool_iff; vm_compute; reflexivity).
  assert (He : calculateExperienceMatch 0 blankUser onSiteJob
               <= calculateExperienceMatch 0 pythonUser pythonJob)
    by (apply Qle_bool_iff; vm_compute; reflexivity).
  assert (Hl : lit (5 # 10) <= 1) by (apply Qle_bool_iff; vm_compute; reflexivity).
  assert (Ht : calculateJobTypeMatch blankUser onSiteJob
               <= calculateJobTypeMatch pythonUser pythonJob)
    by (apply Qle_bool_iff; vm_compute; reflexivity).
  exact (better_subscores_never_lower 0 0 blankUser pythonUser onSiteJob pythonJob
           (lit (5 # 10)) 1 eq_refl eq_refl Hs He Hl Ht).
Defined.

(** X20.  Whenever [calculateMatchScore] returns, the score is at least
    0.11: the location score is never below 0.3 and the job-type score
    never below 0.5, so no pairing scores 0. *)
Theorem match_score_floor (now : Z) (user : User) (job : Job) (score : number) :
  calculateMatchScore now user job = Some score ->
  lit (11 # 100) <= score /\ score <= 1.
Proof.
  rewrite calculateMatchScore_eq.
  destruct (calculateLocationMatch user job) as [l |] eqn:El; [| discriminate].
  cbn [option_map]. intros H.
  assert (E : score
              = normalise
                  (accumulated
                     (calculateSkillsMatch (orElse (skills user) [])
                                           (orElse (requiredSkills job) []))
                     (calculateExperienceMatch now user job) l
                     (calculateJobTypeMatch user job))) by congruence.
  rewrite E. clear H E.
  destruct (calculateSkillsMatch_unit (orElse (skills user) [])
              (orElse (requiredSkills job) [])) as [S0 S1].
  destruct (calculateExperienceMatch_unit now user job) as [E0 E1].
  destruct (calculateLocationMatch_unit user job l El) as [L0 L1].
  destruct (calculateJobTypeMatch_unit user job) as [T0 T1].
  split.
  - apply Qle_trans
      with (normalise (accumulated 0 0 (lit (3 # 10)) (lit (5 # 10))));
      [closed_le |].
    apply score_mono; try assumption.
    + apply (calculateLocationMatch_ge user job l El).
    + apply calculateJobTypeMatch_ge.
  - rewrite normalise_accumulated. apply div_unit.
    + apply weightedSum_bounds; split; assumption.
    + apply weightedSum_bounds; split; assumption.
    + exact weightSum_pos.
Qed.

Lemma match_score_floor_witness :
  calculateMatchScore 0 blankUser onSiteJob
  = Some (185773484629033 # 562949953421312) /\
  lit (11 # 100) <= 185773484629033 # 562949953421312.
Proof.
  assert (H : calculateMatchScore 0 blankUser onSiteJob
              = Some (185773484629033 # 562949953421312))
    by (vm_compute; reflexivity).
  split; [exact H |].
  apply (match_score_floor 0 blankUser onSiteJob _ H).
Defined.

(** X21.  A user who declares nothing (no skills, no experience entries, no
    preferred locations, no preferred job types, each missing or empty)
    gets the same score against every job: the sub-scores are the neutral
    0, 0.5, 0.5 or 1, and 0.8, which give 0.43000000000000005 for a remote
    job and 0.33000000000000007 for a job on site. *)
Theorem blank_profile_score (now : Z) (user : User) (job : Job) :
  orElse (skills user) [] = [] ->
  orElse (experience user) [] = [] ->
  preferredLocations user = [] ->
  preferredTypes user = [] ->
  calculateMatchScore now user job
  = Some (if remote job then 3873095679538627 # 9007199254740992
          else 185773484629033 # 562949953421312).
Proof.
  intros Hs He Hl Ht. unfold calculateMatchScore.
  unfold calculateLocationMatch, calculateJobTypeMatch, calculateExperienceMatch,
    calculateSkillsMatch.
  rewrite preferredLocations_eq, preferredTypes_eq, Hs, He, Hl, Ht.
  cbn [isEmpty orb].
  destruct (experienceRange (experienceLevel job)) as [lo hi].
  destruct (remote job); vm_compute; reflexivity.
Qed.

Lemma blank_profile_score_witness :
  calculateMatchScore 0 blankUser pythonJob
  = Some (3873095679538627 # 9007199254740992).
Proof.
  apply (blank_profile_score 0 blankUser pythonJob); reflexivity.
Defined.

End ScoringExtras.

(** ** Letter case and letters *)

Module CaseFacts.
Import Num Str Regex RegexSem StrFacts RegexFacts RegexComplete.
Import Skills SkillsSpec DedupeFacts SkillsFacts.
Import ExtractionSpec ExtractionFacts VocabularyFacts Letters.

Open Scope string_scope.















(** *** Texts without a letter *)

Lemma isLetter_lower (c : ascii) : isLetter (lowerChar c) = isLetter c.
Proof. unfold isLetter. rewrite lowerChar_idempotent. reflexivity. Qed.

Lemma hasLetter_lower (s : string) : hasLetter (toLowerCase s) = hasLetter s.
Proof.
  induction s as [| c s IH]; simpl; [reflexivity |].
  rewrite isLetter_lower, IH. reflexivity.
Qed.

Lemma hasLetter_append (a b : string) :
  hasLetter (a ++ b) = hasLetter a || hasLetter b.
Proof.
  induction a as [| c a IH]; simpl; [reflexivity |].
  rewrite IH. apply orb_assoc.
Qed.

Lemma hasLetter_middle (a w b : string) :
  hasLetter w = true -> hasLetter (a ++ w ++ b) = true.
Proof.
  intros H. rewrite !hasLetter_append, H. apply orb_true_iff. right. reflexivity.
Qed.

Lemma vocabulary_sources_have_letters :
  forallb hasLetter TECH_SKILLS
  && forallb (fun p => forallb hasLetter (wordsOf p)) patterns = true.
Proof. vm_compute. reflexivity. Qed.

(** Whatever the module finds contains a letter. *)
Lemma record_needs_letter (text : string) (r : SkillRecord) :
  In r (extractSkillsFromText text) -> hasLetter text = true.
Proof.
  intros Hr. pose proof vocabulary_sources_have_letters as Hv.
  apply andb_true_iff in Hv. destruct Hv as [Hd Hp].
  rewrite forallb_forall in Hd, Hp.
  apply result_provenance in Hr.
  destruct Hr as [[Hin [Hinc _]] | [pattern [m [Hpat [Hm _]]]]].
  - rewrite <- hasLetter_lower. apply includes_spec in Hinc.
    destruct Hinc as [a [b ->]]. apply hasLetter_middle. apply Hd. exact Hin.
  - specialize (Hp pattern Hpat). rewrite forallb_forall in Hp.
    pose proof patterns_words as Hw. rewrite forallb_forall in Hw.
    specialize (Hw pattern Hpat). apply andb_true_iff in Hw. destruct Hw as [Hn _].
    apply matchAll_sound in Hm. destruct Hm as [before [after [-> M]]].
    apply matches_wordsOf in M; [| exact Hn].
    apply hasLetter_middle. rewrite <- hasLetter_lower. apply Hp. exact M.
Qed.

End CaseFacts.

Module CaseExtras.
Import Str Skills Letters CaseFacts.

Open Scope string_scope.

(** X22.  A text without any letter (empty, blank, digits, punctuation)
    yields no skill at all. *)
Theorem text_without_letters_yields_nothing (text : string) :
  hasLetter text = false -> extractSkillsFromText text = [].
Proof.
  intros H. destruct (extractSkillsFromText text) as [| r rs] eqn:E;
    [reflexivity |].
  assert (Hr : In r (extractSkillsFromText text)) by (rewrite E; left; reflexivity).
  apply record_needs_letter in Hr. congruence.
Qed.

Lemma text_without_letters_yields_nothing_witness :
  hasLetter "  42 + 7 = 49 !" = false /\
  extractSkillsFromText "  42 + 7 = 49 !" = [].
Proof.
  split; [reflexivity |].
  apply (text_without_letters_yields_nothing "  42 + 7 = 49 !" eq_refl).
Defined.



End CaseExtras.
